(** * The Orion agent ([src/prefect/agent.py]) in Rocq

    A shallow embedding of [OrionAgent]: the work-queue cache, the polling
    tick, the submission coordinator, the infrastructure resolver with its
    dot-path overrides, and the start/shutdown lifecycle.  Server calls,
    the clock and the dispatcher are the fields of an interface record, so
    every statement holds for any server behaviour. *)

From Stdlib Require Import ZArith Lia Ascii String.
From stdpp Require Import gmap strings list pretty.

Open Scope string_scope.
Open Scope Z_scope.
Open Scope list_scope.

(** ** Python values carried by a block document's [data] mapping *)

#[warnings="-register-all"]
Inductive pyvalue : Type :=
| PNone
| PBool (b : bool)
| PInt (z : Z)
| PStr (s : string)
| PList (items : list pyvalue)
| PDict (entries : gmap string pyvalue).

(** ** Exceptions the agent raises or handles *)

Inductive exn : Type :=
| Abort (reason : string)
| ObjectNotFound
| KeyError (key : string)
| IndexError
| TypeError
| AttributeError (attr : string)
| RuntimeError (msg : string)
| ValueError (msg : string)
| OtherError (msg : string).

Definition is_Abort (e : exn) : bool :=
  match e with Abort _ => true | _ => false end.

Definition is_ObjectNotFound (e : exn) : bool :=
  match e with ObjectNotFound => true | _ => false end.

(** ** Dot-path overrides ([get_infrastructure], the loop over
    [deployment.infra_overrides]) *)

Module Override.

(** [str.split(sep)] for a one-character separator: never empty, and the
    empty string splits to one empty segment. *)
Fixpoint split (sep : Ascii.ascii) (s : string) : list string :=
  match s with
  | EmptyString => [EmptyString]
  | String c rest =>
      if Ascii.eqb c sep then EmptyString :: split sep rest
      else match split sep rest with
           | [] => [String c EmptyString]
           | seg :: segs => String c seg :: segs
           end
  end.

(** [(l[:-1], l[-1])]; [l[-1]] raises [IndexError] on an empty list. *)
Fixpoint split_last (l : list string) : option (list string * string) :=
  match l with
  | [] => None
  | [x] => Some ([], x)
  | x :: rest =>
      match split_last rest with
      | Some (init, last) => Some (x :: init, last)
      | None => None
      end
  end.

(** [data[field]] *)
Definition getitem (data : pyvalue) (field : string) : exn + pyvalue :=
  match data with
  | PDict m =>
      match m !! field with
      | Some v => inr v
      | None => inl (KeyError field)
      end
  | _ => inl TypeError
  end.

(** [data[field] = value] *)
Definition setitem (data : pyvalue) (field : string) (value : pyvalue)
  : exn + pyvalue :=
  match data with
  | PDict m => inr (PDict (<[field := value]> m))
  | _ => inl TypeError
  end.

(** [for field in nested_fields[:-1]: data = data[field]] *)
Fixpoint descend (fields : list string) (data : pyvalue) : exn + pyvalue :=
  match fields with
  | [] => inr data
  | field :: rest =>
      match getitem data field with
      | inl e => inl e
      | inr child => descend rest child
      end
  end.

(** The descent followed by the assignment.  The mapping is mutated in
    place in the source; here the root is rebuilt around the mapping the
    descent reached. *)
Fixpoint set_nested (fields : list string) (last : string)
         (value : pyvalue) (data : pyvalue) : exn + pyvalue :=
  match fields with
  | [] => setitem data last value
  | field :: rest =>
      match getitem data field with
      | inl e => inl e
      | inr child =>
          match set_nested rest last value child with
          | inl e => inl e
          | inr child' => setitem data field child'
          end
      end
  end.

(** One iteration of the loop: [override.split(".")], descent, store. *)
Definition apply_override (infra_dict : pyvalue)
           (item : string * pyvalue) : exn + pyvalue :=
  let nested_fields := split "."%char (fst item) in
  match split_last nested_fields with
  | None => inl IndexError
  | Some (init, last) => set_nested init last (snd item) infra_dict
  end.

(** The whole loop, in the mapping's iteration order. *)
Fixpoint apply_overrides (infra_dict : pyvalue)
         (items : list (string * pyvalue)) : exn + pyvalue :=
  match items with
  | [] => inr infra_dict
  | item :: rest =>
      match apply_override infra_dict item with
      | inl e => inl e
      | inr infra_dict' => apply_overrides infra_dict' rest
      end
  end.

End Override.

(** ** Schemas read from the server
    ([prefect.orion.schemas.core], [.states], [.data]: field names as the
    agent uses them) *)

Definition UUID : Type := N.

(** Instants ([pendulum.DateTime]) in microseconds since the epoch. *)
Definition DateTime : Type := Z.

Definition add_seconds (t : DateTime) (seconds : Z) : DateTime :=
  t + seconds * 1000000.

Inductive StateType : Type :=
| SCHEDULED | PENDING | RUNNING | COMPLETED | FAILED | CANCELLED.

Module DataDocument.
Record t : Type := mk { encoding : string; blob : exn }.
(** [DataDocument.encode(encoding, exc)]: the payload is opaque to the
    agent; it is kept as the exception it was made from. *)
Definition encode (encoding : string) (exc : exn) : t := mk encoding exc.
End DataDocument.

Module State.
Record t : Type := mk {
  type : StateType;
  message : option string;
  data : option DataDocument.t
}.
Definition is_pending (s : t) : bool :=
  match type s with PENDING => true | _ => false end.
End State.

Definition Pending : State.t := State.mk PENDING None None.

Definition Failed (message : string) (data : DataDocument.t) : State.t :=
  State.mk FAILED (Some message) (Some data).

Module FlowRun.
Record t : Type := mk {
  id : UUID;
  state : option State.t;
  deployment_id : option UUID
}.
End FlowRun.

Module WorkQueue.
Record t : Type := mk { id : UUID; name : string; is_paused : bool }.
End WorkQueue.

Module Deployment.
(** [infra_overrides] is a mapping or [None]; its items are kept in
    iteration order. *)
Record t : Type := mk {
  infrastructure_document_id : option UUID;
  infra_overrides : option (list (string * pyvalue))
}.
End Deployment.

Module BlockDocument.
Record t : Type := mk {
  id : option UUID;
  block_type : string;
  data : pyvalue
}.
End BlockDocument.

Module Infrastructure.
(** A typed block rebuilt from a document; [_block_document_id] is unset
    until the block is saved. *)
Record t : Type := mk {
  type : string;
  fields : pyvalue;
  _block_document_id : option UUID
}.
End Infrastructure.

Definition Process : Infrastructure.t :=
  Infrastructure.mk "process" (PDict ∅) None.

(** ** What the agent does to its surroundings: log records and calls *)

Inductive level : Type := DEBUG | INFO | ERROR.

Inductive log_message : Type :=
| CreatedWorkQueue (name : string)
| FailedToCreateWorkQueue (name : string)
| CheckingForFlowRuns
| WorkQueuePaused (name : string) (id : UUID)
| WorkQueueNotFound (name : string) (id : UUID)
| UnexpectedError (exc : exn)
| SubmittingFlowRun (id : UUID)
| CompletedSubmission (id : UUID)
| FailedToSubmit (id : UUID)
| AbortSignal (id : UUID) (exc : exn)
| FailedToUpdateState (id : UUID)
| NonPendingState (id : UUID) (type : StateType).

Inductive event : Type :=
| Log (lvl : level) (exc_info : bool) (msg : log_message)
| CallReadWorkQueueByName (name : string)
| CallCreateWorkQueue (name : string)
| CallGetRunsInWorkQueue (id : UUID) (limit : Z) (scheduled_before : DateTime)
| CallReadDeployment (id : option UUID)
| CallReadBlockDocument (id : option UUID)
| CallProposeState (state : State.t) (flow_run_id : UUID)
| TaskGroupStartSoon (flow_run : FlowRun.t)
| TaskGroupStart (flow_run : FlowRun.t) (infrastructure : Infrastructure.t)
| TaskGroupExit
| ClientEnter
| ClientExit
| SaveBlock (block : Infrastructure.t).

Definition is_get_runs_call (ev : event) : bool :=
  match ev with CallGetRunsInWorkQueue _ _ _ => true | _ => false end.

Definition is_dispatch (ev : event) : bool :=
  match ev with TaskGroupStart _ _ => true | _ => false end.

Definition is_spawn_of (run_id : UUID) (ev : event) : bool :=
  match ev with
  | TaskGroupStartSoon r => bool_decide (FlowRun.id r = run_id)
  | _ => false
  end.

Definition is_dispatch_of (run_id : UUID) (ev : event) : bool :=
  match ev with
  | TaskGroupStart r _ => bool_decide (FlowRun.id r = run_id)
  | _ => false
  end.

Definition is_failed_proposal (ev : event) : bool :=
  match ev with
  | CallProposeState st _ =>
      match State.type st with FAILED => true | _ => false end
  | _ => false
  end.

(** ** The collaborators of the agent

    The client, the clock, the dispatcher and block reconstruction live
    outside [agent.py].  Each call takes the state [W] of the outside world
    and returns a result or a raised exception with the next state. *)

Record Orion (W : Type) : Type := {
  (** whether [prefect.exceptions.Abort] derives from [Exception] *)
  abort_is_Exception : bool;
  PREFECT_AGENT_PREFETCH_SECONDS : Z;
  pendulum_now : W -> DateTime * W;
  read_work_queue_by_name : string -> W -> (exn + WorkQueue.t) * W;
  create_work_queue : string -> W -> (exn + WorkQueue.t) * W;
  get_runs_in_work_queue :
    UUID -> Z -> DateTime -> W -> (exn + list FlowRun.t) * W;
  read_deployment : option UUID -> W -> (exn + Deployment.t) * W;
  read_block_document : option UUID -> W -> (exn + BlockDocument.t) * W;
  propose_state : State.t -> UUID -> W -> (exn + State.t) * W;
  (** the document rebuilt from the patched mapping, then
      [Block._from_block_document] *)
  from_block_document : BlockDocument.t -> exn + Infrastructure.t;
  (** [task_group.start(submit_flow_run, flow_run, infrastructure)]:
      returns once the workload reported started *)
  submit_flow_run : FlowRun.t -> Infrastructure.t -> W -> (exn + unit) * W;
  client_aenter : W -> (exn + unit) * W;
  client_aexit : W -> (exn + unit) * W;
  (** [default_infrastructure._save(is_anonymous=True)] *)
  save_anonymous : Infrastructure.t -> W -> (exn + UUID) * W
}.

Arguments abort_is_Exception {W}.
Arguments PREFECT_AGENT_PREFETCH_SECONDS {W}.
Arguments pendulum_now {W}.
Arguments read_work_queue_by_name {W}.
Arguments create_work_queue {W}.
Arguments get_runs_in_work_queue {W}.
Arguments read_deployment {W}.
Arguments read_block_document {W}.
Arguments propose_state {W}.
Arguments from_block_document {W}.
Arguments submit_flow_run {W}.
Arguments client_aenter {W}.
Arguments client_aexit {W}.
Arguments save_anonymous {W}.

(** ** Agent state *)

Inductive OrionClient : Type := get_client.

Module OrionAgent.
Record t : Type := mk {
  work_queues : list string;
  prefetch_seconds : option Z;
  submitting_flow_run_ids : gset UUID;
  started : bool;
  (** the coordinators handed to [start_soon] that have not run yet *)
  task_group : option (list FlowRun.t);
  client : option OrionClient;
  _work_queue_cache_expiration : option DateTime;
  _work_queue_cache : list WorkQueue.t;
  default_infrastructure : option Infrastructure.t;
  default_infrastructure_document_id : option UUID
}.

Definition with_submitting_flow_run_ids (v : gset UUID) (a : t) : t :=
  mk (work_queues a) (prefetch_seconds a) v (started a) (task_group a)
     (client a) (_work_queue_cache_expiration a) (_work_queue_cache a)
     (default_infrastructure a) (default_infrastructure_document_id a).

Definition with_started (v : bool) (a : t) : t :=
  mk (work_queues a) (prefetch_seconds a) (submitting_flow_run_ids a) v
     (task_group a) (client a) (_work_queue_cache_expiration a)
     (_work_queue_cache a) (default_infrastructure a)
     (default_infrastructure_document_id a).

Definition with_task_group (v : option (list FlowRun.t)) (a : t) : t :=
  mk (work_queues a) (prefetch_seconds a) (submitting_flow_run_ids a)
     (started a) v (client a) (_work_queue_cache_expiration a)
     (_work_queue_cache a) (default_infrastructure a)
     (default_infrastructure_document_id a).

Definition with_client (v : option OrionClient) (a : t) : t :=
  mk (work_queues a) (prefetch_seconds a) (submitting_flow_run_ids a)
     (started a) (task_group a) v (_work_queue_cache_expiration a)
     (_work_queue_cache a) (default_infrastructure a)
     (default_infrastructure_document_id a).

Definition with_cache_expiration (v : option DateTime) (a : t) : t :=
  mk (work_queues a) (prefetch_seconds a) (submitting_flow_run_ids a)
     (started a) (task_group a) (client a) v (_work_queue_cache a)
     (default_infrastructure a) (default_infrastructure_document_id a).

Definition with_cache (v : list WorkQueue.t) (a : t) : t :=
  mk (work_queues a) (prefetch_seconds a) (submitting_flow_run_ids a)
     (started a) (task_group a) (client a)
     (_work_queue_cache_expiration a) v (default_infrastructure a)
     (default_infrastructure_document_id a).

Definition with_default_infrastructure_document_id (v : option UUID)
           (a : t) : t :=
  mk (work_queues a) (prefetch_seconds a) (submitting_flow_run_ids a)
     (started a) (task_group a) (client a)
     (_work_queue_cache_expiration a) (_work_queue_cache a)
     (default_infrastructure a) v.

(** [OrionAgent.__init__]; [set(work_queues)] is kept as a duplicate-free
    list standing for the set's iteration order. *)
Definition __init__ (work_queues : list string)
           (prefetch_seconds : option Z)
           (default_infrastructure : option Infrastructure.t)
           (default_infrastructure_document_id : option UUID) : exn + t :=
  match default_infrastructure, default_infrastructure_document_id with
  | Some _, Some _ =>
      inl (ValueError "Provide only one of 'default_infrastructure' and 'default_infrastructure_document_id'.")
  | Some infra, None =>
      inr (mk (remove_dups work_queues) prefetch_seconds ∅ false None None
              None [] (Some infra) (Infrastructure._block_document_id infra))
  | None, Some doc_id =>
      inr (mk (remove_dups work_queues) prefetch_seconds ∅ false None None
              None [] None (Some doc_id))
  | None, None =>
      inr (mk (remove_dups work_queues) prefetch_seconds ∅ false None None
              None [] (Some Process) None)
  end.
End OrionAgent.

(** ** Running agent code

    A computation takes the agent and the outside world and returns a value
    or a raised exception, the state it leaves behind (mutations made
    before a raise persist) and the log records and calls it made. *)

Record St (W : Type) : Type := mkSt { agent : OrionAgent.t; world : W }.
Arguments mkSt {W}.
Arguments agent {W}.
Arguments world {W}.

Definition M (W A : Type) : Type := St W -> (exn + A) * St W * list event.

Definition result {W A} (o : (exn + A) * St W * list event) : exn + A :=
  fst (fst o).
Definition final {W A} (o : (exn + A) * St W * list event) : St W :=
  snd (fst o).
Definition events {W A} (o : (exn + A) * St W * list event) : list event :=
  snd o.

Arguments result {W A} !o /.
Arguments final {W A} !o /.
Arguments events {W A} !o /.

#[export] Instance M_ret {W} : MRet (M W) :=
  fun A a s => (inr a, s, []).

#[export] Instance M_bind {W} : MBind (M W) :=
  fun A B f m s =>
    match m s with
    | (inl e, s1, t1) => (inl e, s1, t1)
    | (inr a, s1, t1) =>
        match f a s1 with
        | (r, s2, t2) => (r, s2, t1 ++ t2)
        end
    end.

Section Agent.
Context {W : Type} (orion : Orion W).
Import OrionAgent.

Local Abbreviation M := (M W).

Definition raise {A} (e : exn) : M A := fun s => (inl e, s, []).

Definition get_agent : M OrionAgent.t := fun s => (inr (agent s), s, []).

Definition modify_agent (f : OrionAgent.t -> OrionAgent.t) : M unit :=
  fun s => (inr tt, mkSt (f (agent s)) (world s), []).

Definition emit (ev : event) : M unit := fun s => (inr tt, s, [ev]).

Definition outside {A} (op : W -> (exn + A) * W) : M A :=
  fun s => match op (world s) with
           | (r, w) => (r, mkSt (agent s) w, [])
           end.

Definition now : M DateTime :=
  fun s => match pendulum_now orion (world s) with
           | (t, w) => (inr t, mkSt (agent s) w, [])
           end.

(** [try: body except ...]: the handler picks the clause that matches the
    exception, [None] when no clause does. *)
Definition try_except {A} (body : M A) (handler : exn -> option (M A))
  : M A :=
  fun s =>
    match body s with
    | (inl e, s1, t1) =>
        match handler e with
        | Some h => match h s1 with (r, s2, t2) => (r, s2, t1 ++ t2) end
        | None => (inl e, s1, t1)
        end
    | ok => ok
    end.

(** [except Exception] *)
Definition isinstance_Exception (e : exn) : bool :=
  if is_Abort e then abort_is_Exception orion else true.

(** [await self.client.<attr>(...)]; [self.client] is [None] before
    [start] and after [shutdown]. *)
Definition client_call {A} (attr : string) (ev : event)
           (op : W -> (exn + A) * W) : M A :=
  a ← get_agent;
  match client a with
  | None => raise (AttributeError attr)
  | Some _ => emit ev;; outside op
  end.

Fixpoint for_each {A B} (l : list A) (body : A -> B -> M B) (acc : B)
  : M B :=
  match l with
  | [] => mret acc
  | x :: rest => acc' ← body x acc; for_each rest body acc'
  end.

(** *** [get_work_queues] *)

(** The body of the reload loop up to the [continue]. *)
Definition load_work_queue (name : string) : M (option WorkQueue.t) :=
  try_except
    (work_queue ← client_call "read_work_queue_by_name"
                   (CallReadWorkQueueByName name)
                   (read_work_queue_by_name orion name);
     mret (Some work_queue))
    (fun e =>
       if is_ObjectNotFound e then
         Some (try_except
                 (work_queue ← client_call "create_work_queue"
                                (CallCreateWorkQueue name)
                                (create_work_queue orion name);
                  emit (Log INFO false (CreatedWorkQueue name));;
                  mret (Some work_queue))
                 (fun exc =>
                    if isinstance_Exception exc then
                      Some (emit (Log ERROR true
                                      (FailedToCreateWorkQueue name));;
                            mret None)
                    else None))
       else None).

(** One round of the reload loop: the queue is loaded, appended to the
    cache and yielded.  [body] is the loop body of the generator's
    consumer, run at every [yield] with the consumer's loop state. *)
Definition reload {B} (body : WorkQueue.t -> B -> M B) (name : string)
           (acc : B) : M B :=
  loaded ← load_work_queue name;
  match loaded with
  | None => mret acc
  | Some work_queue =>
      modify_agent
        (fun a => with_cache (_work_queue_cache a ++ [work_queue]) a);;
      body work_queue acc
  end.

(** The generator, driven by its consumer. *)
Definition get_work_queues {B} (body : WorkQueue.t -> B -> M B) (acc : B)
  : M B :=
  now ← now;
  a ← get_agent;
  if bool_decide (default now (_work_queue_cache_expiration a) > now)
  then for_each (_work_queue_cache a) body acc
  else
    modify_agent (with_cache []);;
    modify_agent (with_cache_expiration (Some (add_seconds now 30)));;
    a ← get_agent;
    for_each (work_queues a) (reload body) acc.

(** *** [get_and_submit_flow_runs] *)

(** [self.prefetch_seconds or PREFECT_AGENT_PREFETCH_SECONDS.value()] *)
Definition prefetch (a : OrionAgent.t) : Z :=
  match prefetch_seconds a with
  | Some n => if n =? 0 then PREFECT_AGENT_PREFETCH_SECONDS orion else n
  | None => PREFECT_AGENT_PREFETCH_SECONDS orion
  end.

(** The body of the loop over the work queues. *)
Definition load_runs (before : DateTime) (work_queue : WorkQueue.t)
           (submittable_runs : list FlowRun.t) : M (list FlowRun.t) :=
  if WorkQueue.is_paused work_queue then
    emit (Log INFO false (WorkQueuePaused (WorkQueue.name work_queue)
                                          (WorkQueue.id work_queue)));;
    mret submittable_runs
  else
    try_except
      (queue_runs ← client_call "get_runs_in_work_queue"
                     (CallGetRunsInWorkQueue (WorkQueue.id work_queue) 10
                                             before)
                     (get_runs_in_work_queue orion
                        (WorkQueue.id work_queue) 10 before);
       mret (submittable_runs ++ queue_runs))
      (fun exc =>
         if is_ObjectNotFound exc then
           Some (emit (Log ERROR false
                           (WorkQueueNotFound (WorkQueue.name work_queue)
                                              (WorkQueue.id work_queue)));;
                 mret submittable_runs)
         else if isinstance_Exception exc then
           Some (emit (Log ERROR true (UnexpectedError exc));;
                 mret submittable_runs)
         else None).

(** The body of the loop over [submittable_runs]. *)
Definition submit_if_new (flow_run : FlowRun.t) (_ : unit) : M unit :=
  emit (Log INFO false (SubmittingFlowRun (FlowRun.id flow_run)));;
  a ← get_agent;
  if bool_decide (FlowRun.id flow_run ∈ submitting_flow_run_ids a)
  then mret tt
  else
    modify_agent
      (fun a => with_submitting_flow_run_ids
                  (submitting_flow_run_ids a ∪ {[FlowRun.id flow_run]}) a);;
    a ← get_agent;
    match task_group a with
    | None => raise (AttributeError "start_soon")
    | Some tasks =>
        emit (TaskGroupStartSoon flow_run);;
        modify_agent (with_task_group (Some (tasks ++ [flow_run])))
    end.

Definition get_and_submit_flow_runs : M (list FlowRun.t) :=
  a ← get_agent;
  if negb (started a) then
    raise (RuntimeError
             "Agent is not started. Use `async with OrionAgent()...`")
  else
    emit (Log DEBUG false CheckingForFlowRuns);;
    t ← now;
    let before := add_seconds t (prefetch a) in
    submittable_runs ← get_work_queues (load_runs before) [];
    for_each submittable_runs submit_if_new tt;;
    mret submittable_runs.

(** *** [get_infrastructure] *)

Definition get_infrastructure (flow_run : FlowRun.t)
  : M Infrastructure.t :=
  deployment ← client_call "read_deployment"
                 (CallReadDeployment (FlowRun.deployment_id flow_run))
                 (read_deployment orion (FlowRun.deployment_id flow_run));
  a ← get_agent;
  let infrastructure_document_id :=
    match Deployment.infrastructure_document_id deployment with
    | Some doc_id => Some doc_id
    | None => default_infrastructure_document_id a
    end in
  infra_document ← client_call "read_block_document"
                     (CallReadBlockDocument infrastructure_document_id)
                     (read_block_document orion infrastructure_document_id);
  let infra_dict := BlockDocument.data infra_document in
  match Override.apply_overrides infra_dict
          (default [] (Deployment.infra_overrides deployment)) with
  | inl exc => raise exc
  | inr infra_dict =>
      match from_block_document orion
              (BlockDocument.mk (BlockDocument.id infra_document)
                 (BlockDocument.block_type infra_document) infra_dict) with
      | inl exc => raise exc
      | inr infrastructure_block => mret infrastructure_block
      end
  end.

(** *** The submission coordinator *)

Definition _propose_pending_state (flow_run : FlowRun.t) : M bool :=
  proposed ←
    try_except
      (state ← client_call "propose_state"
                 (CallProposeState Pending (FlowRun.id flow_run))
                 (propose_state orion Pending (FlowRun.id flow_run));
       mret (Some state))
      (fun exc =>
         if is_Abort exc then
           Some (emit (Log INFO false
                           (AbortSignal (FlowRun.id flow_run) exc));;
                 mret None)
         else if isinstance_Exception exc then
           Some (emit (Log ERROR true
                           (FailedToUpdateState (FlowRun.id flow_run)));;
                 mret None)
         else None);
  match proposed with
  | None => mret false
  | Some state =>
      if negb (State.is_pending state) then
        emit (Log INFO false
                  (NonPendingState (FlowRun.id flow_run)
                                   (State.type state)));;
        mret false
      else mret true
  end.

Definition _propose_failed_state (flow_run : FlowRun.t) (exc : exn)
  : M unit :=
  try_except
    (let failed := Failed "Submission failed."
                          (DataDocument.encode "cloudpickle" exc) in
     client_call "propose_state"
       (CallProposeState failed (FlowRun.id flow_run))
       (propose_state orion failed (FlowRun.id flow_run));;
     mret tt)
    (fun exc' =>
       if is_Abort exc' then Some (mret tt)
       else if isinstance_Exception exc' then
         Some (emit (Log ERROR true
                         (FailedToUpdateState (FlowRun.id flow_run))))
       else None).

(** [await self.task_group.start(submit_flow_run, flow_run, infrastructure)] *)
Definition task_group_start (flow_run : FlowRun.t)
           (infrastructure : Infrastructure.t) : M unit :=
  a ← get_agent;
  match task_group a with
  | None => raise (AttributeError "start")
  | Some _ =>
      emit (TaskGroupStart flow_run infrastructure);;
      outside (submit_flow_run orion flow_run infrastructure)
  end.

(** [self.submitting_flow_run_ids.remove(flow_run.id)] *)
Definition remove_submitting (run_id : UUID) : M unit :=
  a ← get_agent;
  if bool_decide (run_id ∈ submitting_flow_run_ids a) then
    modify_agent
      (fun a => with_submitting_flow_run_ids
                  (submitting_flow_run_ids a ∖ {[run_id]}) a)
  else raise (KeyError (pretty run_id)).

Definition submit_run (flow_run : FlowRun.t) : M unit :=
  ready_to_submit ← _propose_pending_state flow_run;
  (if ready_to_submit : bool then
     infrastructure ← get_infrastructure flow_run;
     try_except
       (task_group_start flow_run infrastructure;;
        emit (Log INFO false (CompletedSubmission (FlowRun.id flow_run))))
       (fun exc =>
          if isinstance_Exception exc then
            Some (emit (Log ERROR true
                            (FailedToSubmit (FlowRun.id flow_run)));;
                  _propose_failed_state flow_run exc)
          else None)
   else mret tt);;
  remove_submitting (FlowRun.id flow_run).

(** *** Lifecycle *)

Definition start : M unit :=
  modify_agent (with_started true);;
  modify_agent (with_task_group (Some []));;
  modify_agent (with_client (Some get_client));;
  emit ClientEnter;;
  outside (client_aenter orion);;
  a ← get_agent;
  match default_infrastructure a, default_infrastructure_document_id a with
  | Some infrastructure, None =>
      emit (SaveBlock infrastructure);;
      doc_id ← outside (save_anonymous orion infrastructure);
      modify_agent (with_default_infrastructure_document_id (Some doc_id))
  | _, _ => mret tt
  end.

(** The task group waits for the coordinators it still holds; they run
    here one after the other in spawning order, and the first exception
    leaves the rest unrun and is raised by the task group. *)
Fixpoint await_coordinators (tasks : list FlowRun.t) : M unit :=
  match tasks with
  | [] => mret tt
  | flow_run :: rest =>
      modify_agent (with_task_group (Some rest));;
      submit_run flow_run;;
      await_coordinators rest
  end.

(** [shutdown()] without exception information. *)
Definition shutdown : M unit :=
  modify_agent (with_started false);;
  a ← get_agent;
  match task_group a with
  | None => raise (AttributeError "__aexit__")
  | Some tasks =>
      emit TaskGroupExit;;
      await_coordinators tasks;;
      a ← get_agent;
      match client a with
      | None => raise (AttributeError "__aexit__")
      | Some _ =>
          emit ClientExit;;
          outside (client_aexit orion);;
          modify_agent (with_task_group None);;
          modify_agent (with_client None);;
          modify_agent (with_submitting_flow_run_ids ∅);;
          modify_agent (with_cache_expiration None);;
          modify_agent (with_cache [])
      end
  end.

(** *** The agent over time

    Between two ticks the task group may run a coordinator it holds.  A
    coordinator runs to its end in one step; what a step raises goes to
    its caller (the ticker, the task group) and the agent goes on. *)

Inductive action : Type := Start | Tick | Coordinator | Shutdown.

Definition run_next_coordinator : M unit :=
  a ← get_agent;
  match task_group a with
  | Some (flow_run :: rest) =>
      modify_agent (with_task_group (Some rest));;
      submit_run flow_run
  | _ => mret tt
  end.

Definition step (act : action) : M unit :=
  match act with
  | Start => start
  | Tick => get_and_submit_flow_runs;; mret tt
  | Coordinator => run_next_coordinator
  | Shutdown => shutdown
  end.

Fixpoint run (acts : list action) (s : St W) : St W * list event :=
  match acts with
  | [] => (s, [])
  | act :: rest =>
      match step act s with
      | (_, s1, t1) =>
          match run rest s1 with
          | (s2, t2) => (s2, t1 ++ t2)
          end
      end
  end.

End Agent.

(** ** Properties the specification names *)

(** The instant a call of [pendulum.now] made in state [s] returns. *)
Definition read_instant {W} (orion : Orion W) (s : St W) : DateTime :=
  fst (pendulum_now orion (world s)).



(** Identifiers of the coordinators the task group still holds. *)
Definition pending_ids (a : OrionAgent.t) : list UUID :=
  match OrionAgent.task_group a with
  | Some tasks => map FlowRun.id tasks
  | None => []
  end.

(** At most one coordinator per run is pending, and the identifier of every
    pending coordinator is in [submitting_flow_run_ids]. *)
Definition one_coordinator_per_run (a : OrionAgent.t) : Prop :=
  NoDup (pending_ids a) /\
  forall run_id, In run_id (pending_ids a) ->
                 run_id ∈ OrionAgent.submitting_flow_run_ids a.

(** The state [shutdown] leaves: the configuration is kept, all else is
    cleared. *)
Definition reset (a : OrionAgent.t) : OrionAgent.t :=
  OrionAgent.mk (OrionAgent.work_queues a) (OrionAgent.prefetch_seconds a)
    ∅ false None None None [] (OrionAgent.default_infrastructure a)
    (OrionAgent.default_infrastructure_document_id a).

Definition count (p : event -> bool) (trace : list event) : nat :=
  length (List.filter p trace).

(** [m] relates the agent it starts from to the agent it leaves. *)
Definition keeps {W A} (R : OrionAgent.t -> OrionAgent.t -> Prop)
           (m : M W A) : Prop :=
  forall s, R (agent s) (agent (final (m s))).

(** Every record and call [m] makes satisfies [P]. *)
Definition emits {W A} (P : event -> Prop) (m : M W A) : Prop :=
  forall s, Forall P (events (m s)).

(** The answer of the server to the claim made in state [s]. *)
Definition claim_answer {W} (orion : Orion W) (flow_run : FlowRun.t)
           (s : St W) : (exn + State.t) * W :=
  propose_state orion Pending (FlowRun.id flow_run) (world s).

(** Neither a dispatch nor the proposal of a Failed state. *)
Definition quiet (ev : event) : Prop :=
  is_dispatch ev = false /\ is_failed_proposal ev = false.

(** No coordinator is spawned. *)
Definition no_spawn (ev : event) : Prop :=
  forall i, is_spawn_of i ev = false.

(** The state proposed for a failed submission. *)
Definition failed_for (exc : exn) : State.t :=
  Failed "Submission failed." (DataDocument.encode "cloudpickle" exc).

(** A call of [get_runs_in_work_queue] is made for a queue of [cache] that
    is not paused, with limit 10 and the instant [before]. *)
Definition polled (before : DateTime) (cache : list WorkQueue.t)
           (ev : event) : Prop :=
  is_get_runs_call ev = true ->
  exists q, In q cache /\ WorkQueue.is_paused q = false /\
            ev = CallGetRunsInWorkQueue (WorkQueue.id q) 10 before.

(** *** The tick, laid out: the clock is read, the queues are polled, the
    runs are gone through. *)

Definition tick_before {W} (orion : Orion W) (s : St W) : DateTime :=
  add_seconds (read_instant orion s) (prefetch orion (agent s)).

Definition tick_fetch {W} (orion : Orion W) (s : St W)
  : (exn + list FlowRun.t) * St W * list event :=
  get_work_queues orion (load_runs orion (tick_before orion s)) []
    (mkSt (agent s) (snd (pendulum_now orion (world s)))).

Definition tick_loop {W} (orion : Orion W) (s : St W)
           (runs : list FlowRun.t) : (exn + unit) * St W * list event :=
  for_each runs submit_if_new tt (final (tick_fetch orion s)).

(** *** Relations between the agent before and after a computation *)

(** Everything but the work-queue cache and its expiration is the same. *)
Definition same_outside_cache (a a' : OrionAgent.t) : Prop :=
  OrionAgent.work_queues a' = OrionAgent.work_queues a /\
  OrionAgent.prefetch_seconds a' = OrionAgent.prefetch_seconds a /\
  OrionAgent.submitting_flow_run_ids a'
  = OrionAgent.submitting_flow_run_ids a /\
  OrionAgent.started a' = OrionAgent.started a /\
  OrionAgent.task_group a' = OrionAgent.task_group a /\
  OrionAgent.client a' = OrionAgent.client a /\
  OrionAgent.default_infrastructure a'
  = OrionAgent.default_infrastructure a /\
  OrionAgent.default_infrastructure_document_id a'
  = OrionAgent.default_infrastructure_document_id a.

(** The cache and its expiration are the same. *)
Definition same_cache (a a' : OrionAgent.t) : Prop :=
  OrionAgent._work_queue_cache a' = OrionAgent._work_queue_cache a /\
  OrionAgent._work_queue_cache_expiration a'
  = OrionAgent._work_queue_cache_expiration a.

(** The expiration of the cache is the same. *)
Definition same_expiration (a a' : OrionAgent.t) : Prop :=
  OrionAgent._work_queue_cache_expiration a'
  = OrionAgent._work_queue_cache_expiration a.

(** The configuration, the started flag and the client are the same. *)
Definition same_setup (a a' : OrionAgent.t) : Prop :=
  OrionAgent.work_queues a' = OrionAgent.work_queues a /\
  OrionAgent.prefetch_seconds a' = OrionAgent.prefetch_seconds a /\
  OrionAgent.started a' = OrionAgent.started a /\
  OrionAgent.client a' = OrionAgent.client a /\
  OrionAgent.default_infrastructure a'
  = OrionAgent.default_infrastructure a /\
  OrionAgent.default_infrastructure_document_id a'
  = OrionAgent.default_infrastructure_document_id a.

(** The task group holds the same coordinators and no identifier other
    than [i] has left [submitting_flow_run_ids]. *)
Definition removes (i : UUID) (a a' : OrionAgent.t) : Prop :=
  OrionAgent.task_group a' = OrionAgent.task_group a /\
  forall j, j ∈ OrionAgent.submitting_flow_run_ids a -> j <> i ->
            j ∈ OrionAgent.submitting_flow_run_ids a'.

(** What [shutdown] clears, leaving [started] as it finds it. *)
Definition cleared (a : OrionAgent.t) : OrionAgent.t :=
  OrionAgent.mk (OrionAgent.work_queues a) (OrionAgent.prefetch_seconds a)
    ∅ (OrionAgent.started a) None None None []
    (OrionAgent.default_infrastructure a)
    (OrionAgent.default_infrastructure_document_id a).

(** ** Scripted servers

    A server whose answers are fixed by a script and whose only state is the
    clock, which advances by a fixed step at every reading. *)

Module Scripted.

Record script : Type := mk {
  clock_step : Z;
  on_read_work_queue : string -> exn + WorkQueue.t;
  on_create_work_queue : string -> exn + WorkQueue.t;
  on_get_runs : UUID -> exn + list FlowRun.t;
  on_read_deployment : exn + Deployment.t;
  on_read_block_document : exn + BlockDocument.t;
  on_propose : State.t -> exn + State.t;
  on_submit : exn + unit
}.

Definition rebuild (doc : BlockDocument.t) : exn + Infrastructure.t :=
  inr (Infrastructure.mk (BlockDocument.block_type doc)
         (BlockDocument.data doc) (BlockDocument.id doc)).

Definition server (sc : script) : Orion DateTime := {|
  abort_is_Exception := false;
  PREFECT_AGENT_PREFETCH_SECONDS := 10;
  pendulum_now := fun w => (w, w + clock_step sc);
  read_work_queue_by_name := fun name w => (on_read_work_queue sc name, w);
  create_work_queue := fun name w => (on_create_work_queue sc name, w);
  get_runs_in_work_queue := fun id _ _ w => (on_get_runs sc id, w);
  read_deployment := fun _ w => (on_read_deployment sc, w);
  read_block_document := fun _ w => (on_read_block_document sc, w);
  propose_state := fun st _ w => (on_propose sc st, w);
  from_block_document := rebuild;
  submit_flow_run := fun _ _ w => (on_submit sc, w);
  client_aenter := fun w => (inr tt, w);
  client_aexit := fun w => (inr tt, w);
  save_anonymous := fun _ w => (inr 99%N, w)
|}.

Definition q1 : WorkQueue.t := WorkQueue.mk 1%N "q1" false.
Definition q2 : WorkQueue.t := WorkQueue.mk 2%N "q2" false.

Definition scheduled : State.t := State.mk SCHEDULED None None.
Definition running : State.t := State.mk RUNNING None None.

Definition run7 : FlowRun.t := FlowRun.mk 7%N (Some scheduled) (Some 3%N).
Definition run8 : FlowRun.t := FlowRun.mk 8%N (Some scheduled) (Some 3%N).

Definition process_document : BlockDocument.t :=
  BlockDocument.mk (Some 5%N) "process"
    (PDict {[ "env" := PDict ∅ ]}).

Definition plain_deployment : Deployment.t :=
  Deployment.mk (Some 5%N) None.

(** an override whose first segment is not a key of the document's data *)
Definition bad_deployment : Deployment.t :=
  Deployment.mk (Some 5%N) (Some [("resources.cpu", PInt 2)]).

(** The server grants every claim, every call succeeds, queue [q1] holds
    run 7. *)
Definition happy : script := {|
  clock_step := 0;
  on_read_work_queue := fun _ => inr q1;
  on_create_work_queue := fun _ => inr q1;
  on_get_runs := fun _ => inr [run7];
  on_read_deployment := inr plain_deployment;
  on_read_block_document := inr process_document;
  on_propose := fun st => inr st;
  on_submit := inr tt
|}.

(** The dispatcher fails. *)
Definition submit_fails : script := {|
  clock_step := 0;
  on_read_work_queue := fun _ => inr q1;
  on_create_work_queue := fun _ => inr q1;
  on_get_runs := fun _ => inr [run7];
  on_read_deployment := inr plain_deployment;
  on_read_block_document := inr process_document;
  on_propose := fun st => inr st;
  on_submit := inl (OtherError "image pull failed")
|}.

(** The deployment carries an override the document cannot take. *)
Definition bad_override : script := {|
  clock_step := 0;
  on_read_work_queue := fun _ => inr q1;
  on_create_work_queue := fun _ => inr q1;
  on_get_runs := fun _ => inr [run7];
  on_read_deployment := inr bad_deployment;
  on_read_block_document := inr process_document;
  on_propose := fun st => inr st;
  on_submit := inr tt
|}.

(** Another agent holds the run: every claim comes back [Running]. *)
Definition claim_lost : script := {|
  clock_step := 0;
  on_read_work_queue := fun _ => inr q1;
  on_create_work_queue := fun _ => inr q1;
  on_get_runs := fun _ => inr [run7];
  on_read_deployment := inr plain_deployment;
  on_read_block_document := inr process_document;
  on_propose := fun _ => inr running;
  on_submit := inr tt
|}.

(** The queue does not exist and creating it fails. *)
Definition creation_race : script := {|
  clock_step := 0;
  on_read_work_queue := fun _ => inl ObjectNotFound;
  on_create_work_queue := fun _ => inl (OtherError "already exists");
  on_get_runs := fun _ => inr [];
  on_read_deployment := inr plain_deployment;
  on_read_block_document := inr process_document;
  on_propose := fun st => inr st;
  on_submit := inr tt
|}.



(** An agent for queue [q1] and block document 5, as [__init__] and then
    [start] leave it. *)
Definition fresh : OrionAgent.t :=
  OrionAgent.mk ["q1"] None ∅ false None None None [] None (Some 5%N).

Definition started : OrionAgent.t :=
  OrionAgent.mk ["q1"] None ∅ true (Some []) (Some get_client) None []
                None (Some 5%N).

(** The started agent after a tick at noon that spawned the coordinator
    of run 7. *)
Definition submitting7 : OrionAgent.t :=
  OrionAgent.mk ["q1"] None {[ 7%N ]} true (Some [run7]) (Some get_client)
                (Some 43230000000) [q1] None (Some 5%N).

Definition at_noon (a : OrionAgent.t) : St DateTime := mkSt a 43200000000.

End Scripted.

(** ** Vocabulary for further properties of the code *)

(** Whether the path holds the separator of [override.split(".")]. *)
Fixpoint has_dot (path : string) : bool :=
  match path with
  | EmptyString => false
  | String c rest => Ascii.eqb c "."%char || has_dot rest
  end.

(** The first segment of a path, the key of the data mapping under which
    all of the override's effect lies. *)
Definition first_segment (path : string) : string :=
  hd EmptyString (Override.split "."%char path).

Definition is_mapping (data : pyvalue) : bool :=
  match data with PDict _ => true | _ => false end.

(** [sep.join(segments)] *)
Fixpoint join (sep : string) (segments : list string) : string :=
  match segments with
  | [] => EmptyString
  | [segment] => segment
  | segment :: rest => segment +:+ sep +:+ join sep rest
  end.

(** The runs handed to [start_soon], in order. *)
Fixpoint spawned (trace : list event) : list FlowRun.t :=
  match trace with
  | [] => []
  | TaskGroupStartSoon flow_run :: rest => flow_run :: spawned rest
  | _ :: rest => spawned rest
  end.

(** The runs of a list that are not in flight, without repeats of an
    identifier, in the order of the list. *)
Fixpoint first_new (in_flight : gset UUID) (runs : list FlowRun.t)
  : list FlowRun.t :=
  match runs with
  | [] => []
  | flow_run :: rest =>
      if bool_decide (FlowRun.id flow_run ∈ in_flight) then
        first_new in_flight rest
      else
        flow_run :: first_new (in_flight ∪ {[FlowRun.id flow_run]}) rest
  end.

(** The cache holds at most one queue per configured name. *)
Definition cache_bounded (a : OrionAgent.t) : Prop :=
  (length (OrionAgent._work_queue_cache a)
   <= length (OrionAgent.work_queues a))%nat.

(** What holds of the agent before holds after. *)
Definition preserves (P : OrionAgent.t -> Prop) (a a' : OrionAgent.t)
  : Prop :=
  P a -> P a'.

(** ** Further scripted servers and agents *)


(** Reading a queue fails with an error other than not-found. *)
Definition unreachable_server : Scripted.script := {|
  Scripted.clock_step := 0;
  Scripted.on_read_work_queue := fun _ => inl (OtherError "connection refused");
  Scripted.on_create_work_queue := fun _ => inr Scripted.q1;
  Scripted.on_get_runs := fun _ => inr [Scripted.run7];
  Scripted.on_read_deployment := inr Scripted.plain_deployment;
  Scripted.on_read_block_document := inr Scripted.process_document;
  Scripted.on_propose := fun st => inr st;
  Scripted.on_submit := inr tt
|}.

(** The queue does not exist yet and can be created. *)
Definition missing_queue : Scripted.script := {|
  Scripted.clock_step := 0;
  Scripted.on_read_work_queue := fun _ => inl ObjectNotFound;
  Scripted.on_create_work_queue := fun _ => inr Scripted.q1;
  Scripted.on_get_runs := fun _ => inr [Scripted.run7];
  Scripted.on_read_deployment := inr Scripted.plain_deployment;
  Scripted.on_read_block_document := inr Scripted.process_document;
  Scripted.on_propose := fun st => inr st;
  Scripted.on_submit := inr tt
|}.

(** The started agent for queue [q1] built with [prefetch_seconds=0]. *)
Definition started_zero_prefetch : OrionAgent.t :=
  OrionAgent.mk ["q1"] (Some 0) ∅ true (Some []) (Some get_client) None []
                None (Some 5%N).

(** * Theorems *)

Import OrionAgent.

(** * The scripted agents are states of the code *)

Example fresh_is_initial :
  OrionAgent.__init__ ["q1"] None None (Some 5%N) = inr Scripted.fresh.
Proof. reflexivity. Qed.

Example started_is_started :
  start (Scripted.server Scripted.happy) (Scripted.at_noon Scripted.fresh)
  = (inr tt, Scripted.at_noon Scripted.started, [ClientEnter]).
Proof. reflexivity. Qed.

Example submitting7_after_tick :
  final (get_and_submit_flow_runs (Scripted.server Scripted.happy)
           (Scripted.at_noon Scripted.started))
  = Scripted.at_noon Scripted.submitting7.
Proof. vm_compute. reflexivity. Qed.

(** * Dot-path overrides *)

Section OverrideFacts.
Import Override.

Example split_abc : split "."%char "a.b.c" = ["a"; "b"; "c"].
Proof. reflexivity. Qed.

Example split_empty : split "."%char "" = [""].
Proof. reflexivity. Qed.

Example split_trailing : split "."%char "a." = ["a"; ""].
Proof. reflexivity. Qed.

Lemma split_not_nil sep s : split sep s <> [].
Proof.
  destruct s as [|c rest]; simpl; [discriminate|].
  destruct (Ascii.eqb c sep); [discriminate|].
  destruct (split sep rest); discriminate.
Qed.

Lemma split_last_app init last :
  split_last (init ++ [last]) = Some (init, last).
Proof.
  induction init as [|x init IH]; simpl; [reflexivity|].
  rewrite IH. destruct (init ++ [last]) eqn:E; [|reflexivity].
  destruct init; discriminate.
Qed.

Lemma split_last_some (l : list string) :
  l <> [] -> exists init last, l = init ++ [last].
Proof.
  induction l as [|x l IH]; intros H; [congruence|].
  destruct l as [|y l].
  - exists [], x. reflexivity.
  - destruct IH as (init & last & E); [discriminate|].
    exists (x :: init), last. rewrite E. reflexivity.
Qed.

(** A path always splits into leading segments and a last one. *)
Lemma split_shape sep s : exists init last, split sep s = init ++ [last].
Proof. apply split_last_some, split_not_nil. Qed.



End OverrideFacts.



(** * Reasoning about agent code *)

Section MonadFacts.
Context {W : Type} (orion : Orion W).
Implicit Types (s : St W) (R : OrionAgent.t -> OrionAgent.t -> Prop)
         (P : event -> Prop).

Lemma bind_ok {A B} (m : M W A) (f : A -> M W B) s a s1 t1 :
  m s = (inr a, s1, t1) ->
  (m ≫= f) s = (result (f a s1), final (f a s1), t1 ++ events (f a s1)).
Proof.
  intros H. unfold mbind, M_bind. rewrite H.
  destruct (f a s1) as [[r s2] t2]. reflexivity.
Qed.

Lemma bind_raise {A B} (m : M W A) (f : A -> M W B) s e s1 t1 :
  m s = (inl e, s1, t1) -> (m ≫= f) s = (inl e, s1, t1).
Proof. intros H. unfold mbind, M_bind. rewrite H. reflexivity. Qed.

Lemma ret_bind {A B} (a : A) (f : A -> M W B) s : (mret a ≫= f) s = f a s.
Proof.
  unfold mbind, M_bind, mret, M_ret. destruct (f a s) as [[r s2] t2].
  reflexivity.
Qed.

(** ** What a computation does to the agent *)

Lemma keeps_ret R `{!Reflexive R} {A} (a : A) : keeps R (mret a : M W A).
Proof. intros s. simpl. reflexivity. Qed.

Lemma keeps_raise R `{!Reflexive R} {A} e : keeps R (raise e : M W A).
Proof. intros s. simpl. reflexivity. Qed.

Lemma keeps_get_agent R `{!Reflexive R} : keeps R (get_agent : M W _).
Proof. intros s. simpl. reflexivity. Qed.

Lemma keeps_emit R `{!Reflexive R} ev : keeps R (emit ev : M W _).
Proof. intros s. simpl. reflexivity. Qed.

Lemma keeps_outside R `{!Reflexive R} {A} (op : W -> (exn + A) * W) :
  keeps R (outside op).
Proof.
  intros s. unfold outside. destruct (op (world s)). simpl. reflexivity.
Qed.

Lemma keeps_now R `{!Reflexive R} : keeps R (now orion).
Proof.
  intros s. unfold now. destruct (pendulum_now orion (world s)).
  simpl. reflexivity.
Qed.

Lemma keeps_modify R (f : OrionAgent.t -> OrionAgent.t) :
  (forall a, R a (f a)) -> keeps R (modify_agent f : M W _).
Proof. intros H s. simpl. apply H. Qed.

Lemma keeps_bind R `{!Transitive R} {A B} (m : M W A) (f : A -> M W B) :
  keeps R m -> (forall a, keeps R (f a)) -> keeps R (m ≫= f).
Proof.
  intros Hm Hf s. specialize (Hm s). unfold mbind, M_bind.
  destruct (m s) as [[[e|a] s1] t1]; simpl in *; [assumption|].
  specialize (Hf a s1). destruct (f a s1) as [[r s2] t2]; simpl in *.
  etransitivity; eassumption.
Qed.

Lemma keeps_try R `{!Transitive R} {A} (body : M W A) handler :
  keeps R body ->
  (forall e, match handler e with Some h => keeps R h | None => True end) ->
  keeps R (try_except body handler).
Proof.
  intros Hb Hh s. specialize (Hb s). unfold try_except.
  destruct (body s) as [[[e|a] s1] t1]; simpl in *; [|assumption].
  specialize (Hh e). destruct (handler e) as [h|]; simpl; [|assumption].
  specialize (Hh s1). destruct (h s1) as [[r s2] t2]; simpl in *.
  etransitivity; eassumption.
Qed.

Lemma keeps_for_each R `{!PreOrder R} {A B} (l : list A)
      (body : A -> B -> M W B) :
  (forall x acc, keeps R (body x acc)) ->
  forall acc, keeps R (for_each l body acc).
Proof.
  intros Hb. induction l as [|x l IH]; intros acc; simpl.
  - apply keeps_ret; apply _.
  - apply keeps_bind; [apply _|apply Hb|apply IH].
Qed.

Lemma keeps_weaken R R' {A} (m : M W A) :
  (forall a a', R a a' -> R' a a') -> keeps R m -> keeps R' m.
Proof. intros H Hm s. apply H, Hm. Qed.

(** ** What a computation records *)

Lemma emits_ret P {A} (a : A) : emits P (mret a : M W A).
Proof. intros s. constructor. Qed.

Lemma emits_raise P {A} e : emits P (raise e : M W A).
Proof. intros s. constructor. Qed.

Lemma emits_get_agent P : emits P (get_agent : M W _).
Proof. intros s. constructor. Qed.

Lemma emits_modify P f : emits P (modify_agent f : M W _).
Proof. intros s. constructor. Qed.

Lemma emits_emit P ev : P ev -> emits P (emit ev : M W _).
Proof. intros H s. simpl. repeat constructor. exact H. Qed.

Lemma emits_outside P {A} (op : W -> (exn + A) * W) : emits P (outside op).
Proof.
  intros s. unfold outside. destruct (op (world s)). constructor.
Qed.

Lemma emits_now P : emits P (now orion).
Proof.
  intros s. unfold now. destruct (pendulum_now orion (world s)).
  constructor.
Qed.

Lemma emits_bind P {A B} (m : M W A) (f : A -> M W B) :
  emits P m -> (forall a, emits P (f a)) -> emits P (m ≫= f).
Proof.
  intros Hm Hf s. specialize (Hm s). unfold mbind, M_bind.
  destruct (m s) as [[[e|a] s1] t1]; simpl in *; [assumption|].
  specialize (Hf a s1). destruct (f a s1) as [[r s2] t2]; simpl in *.
  apply Forall_app; split; assumption.
Qed.

Lemma emits_try P {A} (body : M W A) handler :
  emits P body ->
  (forall e, match handler e with Some h => emits P h | None => True end) ->
  emits P (try_except body handler).
Proof.
  intros Hb Hh s. specialize (Hb s). unfold try_except.
  destruct (body s) as [[[e|a] s1] t1]; simpl in *; [|assumption].
  specialize (Hh e). destruct (handler e) as [h|]; simpl; [|assumption].
  specialize (Hh s1). destruct (h s1) as [[r s2] t2]; simpl in *.
  apply Forall_app; split; assumption.
Qed.

Lemma emits_for_each P {A B} (l : list A) (body : A -> B -> M W B) :
  (forall x acc, emits P (body x acc)) ->
  forall acc, emits P (for_each l body acc).
Proof.
  intros Hb. induction l as [|x l IH]; intros acc; simpl.
  - apply emits_ret.
  - apply emits_bind; [apply Hb|apply IH].
Qed.

End MonadFacts.

(** Decompose a goal [keeps R m] or [emits P m] along the structure of [m]. *)
Ltac step_through :=
  repeat first
    [ match goal with |- forall _, _ => intro end
    | apply keeps_ret; [apply _]
    | apply keeps_raise; [apply _]
    | apply keeps_get_agent; [apply _]
    | apply keeps_emit; [apply _]
    | apply keeps_outside; [apply _]
    | apply keeps_now; [apply _]
    | apply keeps_bind; [apply _| |]
    | apply keeps_try; [apply _| |]
    | apply keeps_for_each; [apply _|]
    | apply emits_ret
    | apply emits_raise
    | apply emits_get_agent
    | apply emits_modify
    | apply emits_outside
    | apply emits_now
    | apply emits_bind
    | apply emits_try
    | apply emits_for_each
    | exact I
    | match goal with
      | |- keeps _ (match ?x with _ => _ end) => destruct x
      | |- emits _ (match ?x with _ => _ end) => destruct x
      | |- match (if ?b then _ else _) with _ => _ end => destruct b
      | |- match (match ?x with _ => _ end) with _ => _ end => destruct x
      end ].

Section Frames.
Context {W : Type} (orion : Orion W).

Lemma keeps_client_call R `{!PreOrder R} {A} attr ev
      (op : W -> (exn + A) * W) :
  keeps R (client_call attr ev op).
Proof. unfold client_call. step_through. Qed.

Lemma emits_client_call (P : event -> Prop) {A} attr ev
      (op : W -> (exn + A) * W) :
  P ev -> emits P (client_call attr ev op).
Proof. intros H. unfold client_call. step_through. apply emits_emit, H. Qed.

(** The claim, the resolver, the dispatcher and the failure report leave
    the agent as it is. *)
Lemma propose_pending_keeps flow_run :
  keeps eq (_propose_pending_state orion flow_run).
Proof.
  unfold _propose_pending_state. step_through;
    apply keeps_client_call; apply _.
Qed.

Lemma propose_failed_keeps flow_run exc :
  keeps eq (_propose_failed_state orion flow_run exc).
Proof.
  unfold _propose_failed_state. step_through;
    apply keeps_client_call; apply _.
Qed.

Lemma get_infrastructure_keeps flow_run :
  keeps eq (get_infrastructure orion flow_run).
Proof.
  unfold get_infrastructure. step_through;
    apply keeps_client_call; apply _.
Qed.

Lemma task_group_start_keeps flow_run infrastructure :
  keeps eq (task_group_start orion flow_run infrastructure).
Proof. unfold task_group_start. step_through. Qed.

End Frames.

Lemma existsb_false_Forall {A} (p : A -> bool) (l : list A) :
  existsb p l = false <-> Forall (fun x => p x = false) l.
Proof.
  induction l as [|x l IH]; simpl.
  - split; [constructor|reflexivity].
  - rewrite orb_false_iff, IH. split.
    + intros [H1 H2]. constructor; assumption.
    + intros H. inversion H; subst. split; assumption.
Qed.

Ltac run_code :=
  cbv [mbind M_bind mret M_ret try_except client_call get_agent emit outside
       raise modify_agent result final events]; simpl.

Section Coordinator.
Context {W : Type} (orion : Orion W).
Implicit Types (s : St W) (flow_run : FlowRun.t).

Lemma propose_pending_quiet flow_run :
  emits quiet (_propose_pending_state orion flow_run).
Proof.
  unfold _propose_pending_state. step_through;
    apply emits_emit; split; reflexivity.
Qed.

Lemma propose_pending_refused flow_run s :
  OrionAgent.client (agent s) = None \/
  (exists e, fst (claim_answer orion flow_run s) = inl e) \/
  (exists st, fst (claim_answer orion flow_run s) = inr st /\
              State.is_pending st = false) ->
  result (_propose_pending_state orion flow_run s) = inr false.
Proof.
  unfold claim_answer, _propose_pending_state. destruct s as [a w]. simpl.
  intros H. run_code.
  destruct (OrionAgent.client a) as [c|]; simpl.
  - destruct (propose_state orion Pending (FlowRun.id flow_run) w)
      as [[e|st] w'] eqn:E; simpl in *.
    + destruct e; simpl; try reflexivity.
    + destruct H as [H|[[e H]|[st' [H1 H2]]]]; try discriminate.
      injection H1 as <-. rewrite H2. reflexivity.
  - reflexivity.
Qed.

Lemma propose_pending_granted flow_run s :
  result (_propose_pending_state orion flow_run s) = inr true ->
  exists st, fst (claim_answer orion flow_run s) = inr st /\
             State.is_pending st = true.
Proof.
  unfold claim_answer, _propose_pending_state. destruct s as [a w]. simpl.
  run_code.
  destruct (OrionAgent.client a) as [c|]; simpl; [|discriminate].
  destruct (propose_state orion Pending (FlowRun.id flow_run) w)
    as [[e|st] w'] eqn:E; simpl in *.
  - destruct e; simpl; discriminate.
  - destruct (State.is_pending st) eqn:Hp; simpl; [|discriminate].
    intros _. exists st. split; [reflexivity|assumption].
Qed.

Lemma propose_pending_total flow_run s :
  exists b, result (_propose_pending_state orion flow_run s) = inr b.
Proof.
  unfold _propose_pending_state. destruct s as [a w]. run_code.
  destruct (OrionAgent.client a) as [c|]; simpl; [|eexists; reflexivity].
  destruct (propose_state orion Pending (FlowRun.id flow_run) w)
    as [[e|st] w']; simpl.
  - destruct e; simpl; eexists; reflexivity.
  - destruct (State.is_pending st); simpl; eexists; reflexivity.
Qed.

Lemma remove_submitting_silent run_id s :
  events (remove_submitting run_id s) = [].
Proof.
  unfold remove_submitting. run_code.
  destruct (bool_decide _); reflexivity.
Qed.

(** When the claim is not granted the coordinator goes straight to the
    removal of the identifier. *)
Lemma submit_run_refused flow_run s :
  result (_propose_pending_state orion flow_run s) = inr false ->
  submit_run orion flow_run s
  = (result (remove_submitting (FlowRun.id flow_run)
               (final (_propose_pending_state orion flow_run s))),
     final (remove_submitting (FlowRun.id flow_run)
              (final (_propose_pending_state orion flow_run s))),
     events (_propose_pending_state orion flow_run s)).
Proof.
  intros H. unfold submit_run.
  destruct (_propose_pending_state orion flow_run s) as [[r s1] t1] eqn:E.
  simpl in *. subst r.
  rewrite (bind_ok _ _ _ _ _ _ E), ret_bind.
  rewrite remove_submitting_silent, app_nil_r. reflexivity.
Qed.

End Coordinator.

(** C3.  A run is dispatched to an infrastructure only if the server
    answered the Pending proposal with a pending state.  If the server raises
    (Abort or anything else) or returns a state that is not pending,
    [_propose_pending_state] returns False and the coordinator neither
    dispatches the run nor proposes a Failed state. *)
Theorem claim_before_dispatch {W} (orion : Orion W)
        (flow_run : FlowRun.t) (s : St W) :
  (existsb is_dispatch (events (submit_run orion flow_run s)) = true ->
   exists st, fst (claim_answer orion flow_run s) = inr st /\
              State.is_pending st = true) /\
  ((exists e, fst (claim_answer orion flow_run s) = inl e) \/
   (exists st, fst (claim_answer orion flow_run s) = inr st /\
               State.is_pending st = false) ->
   result (_propose_pending_state orion flow_run s) = inr false /\
   existsb is_dispatch (events (submit_run orion flow_run s)) = false /\
   existsb is_failed_proposal (events (submit_run orion flow_run s)) = false).
Proof.
  assert (Hrefused :
            result (_propose_pending_state orion flow_run s) = inr false ->
            existsb is_dispatch (events (submit_run orion flow_run s)) = false /\
            existsb is_failed_proposal (events (submit_run orion flow_run s))
            = false).
  { intros H. rewrite (submit_run_refused orion flow_run s H). simpl.
    pose proof (propose_pending_quiet orion flow_run s) as Hq.
    split; apply existsb_false_Forall; eapply Forall_impl; try exact Hq;
      intros ev [H1 H2]; assumption. }
  split.
  - intros Hd.
    destruct (propose_pending_total orion flow_run s) as [[|] Hb].
    + apply propose_pending_granted. exact Hb.
    + destruct (Hrefused Hb) as [Hn _]. congruence.
  - intros H.
    assert (Hb : result (_propose_pending_state orion flow_run s) = inr false)
      by (apply propose_pending_refused; right; exact H).
    split; [exact Hb|]. apply Hrefused, Hb.
Qed.

Lemma claim_before_dispatch_witness :
  result (_propose_pending_state (Scripted.server Scripted.claim_lost)
            Scripted.run7 (Scripted.at_noon Scripted.submitting7))
  = inr false /\
  existsb is_dispatch
          (events (submit_run (Scripted.server Scripted.claim_lost)
                     Scripted.run7 (Scripted.at_noon Scripted.submitting7)))
  = false /\
  existsb is_failed_proposal
          (events (submit_run (Scripted.server Scripted.claim_lost)
                     Scripted.run7 (Scripted.at_noon Scripted.submitting7)))
  = false.
Proof.
  apply (proj2 (claim_before_dispatch (Scripted.server Scripted.claim_lost)
                  Scripted.run7 (Scripted.at_noon Scripted.submitting7))).
  right. exists Scripted.running. split; reflexivity.
Defined.

Section Runs.
Context {W : Type} (orion : Orion W).
Implicit Types (s : St W) (flow_run : FlowRun.t).

Lemma bind_run {A B} (m : M W A) (f : A -> M W B) s :
  (m ≫= f) s =
  match result (m s) with
  | inl e => (inl e, final (m s), events (m s))
  | inr a => (result (f a (final (m s))), final (f a (final (m s))),
              events (m s) ++ events (f a (final (m s))))
  end.
Proof.
  unfold mbind, M_bind, result, final, events.
  destruct (m s) as [[[e|a] s1] t1]; simpl; [reflexivity|].
  destruct (f a s1) as [[r s2] t2]. reflexivity.
Qed.

Lemma try_run {A} (body : M W A) handler s :
  try_except body handler s =
  match result (body s) with
  | inl e =>
      match handler e with
      | Some h => (result (h (final (body s))), final (h (final (body s))),
                   events (body s) ++ events (h (final (body s))))
      | None => body s
      end
  | inr _ => body s
  end.
Proof.
  unfold try_except, result, final, events.
  destruct (body s) as [[[e|a] s1] t1]; simpl; [|reflexivity].
  destruct (handler e) as [h|]; [|reflexivity].
  destruct (h s1) as [[r s2] t2]. reflexivity.
Qed.

Lemma run_eta {A} (o : (exn + A) * St W * list event) :
  o = (result o, final o, events o).
Proof. destruct o as [[r s] t]. reflexivity. Qed.

(** The failure report *)

Lemma propose_failed_run flow_run exc s :
  _propose_failed_state orion flow_run exc s =
  match OrionAgent.client (agent s) with
  | None =>
      (inr tt, s,
       [Log ERROR true (FailedToUpdateState (FlowRun.id flow_run))])
  | Some _ =>
      match propose_state orion (failed_for exc) (FlowRun.id flow_run)
              (world s) with
      | (inr _, w) =>
          (inr tt, mkSt (agent s) w,
           [CallProposeState (failed_for exc) (FlowRun.id flow_run)])
      | (inl e, w) =>
          (inr tt, mkSt (agent s) w,
           CallProposeState (failed_for exc) (FlowRun.id flow_run)
           :: (if is_Abort e then []
               else [Log ERROR true
                         (FailedToUpdateState (FlowRun.id flow_run))]))
      end
  end.
Proof.
  unfold _propose_failed_state, failed_for. destruct s as [a w]. run_code.
  destruct (OrionAgent.client a) as [c|]; simpl; [|reflexivity].
  destruct (propose_state orion _ (FlowRun.id flow_run) w)
    as [[e|st] w']; simpl; [|reflexivity].
  destruct e; reflexivity.
Qed.

End Runs.

(** C4.  [_propose_failed_state] never raises: an Abort raised by the server
    during the report is absorbed without a log record, any other error is
    absorbed with one logged error.  When the claim was granted, the
    infrastructure resolved and the dispatch raises an exception, the
    coordinator logs the failure and proposes a Failed state with message
    "Submission failed." and the cloudpickle payload of that exception. *)
Theorem submission_failure_reported {W} (orion : Orion W)
        (flow_run : FlowRun.t) (exc : exn) (s : St W) :
  let failed := Failed "Submission failed."
                       (DataDocument.encode "cloudpickle" exc) in
  result (_propose_failed_state orion flow_run exc s) = inr tt /\
  (forall c e w,
      OrionAgent.client (agent s) = Some c ->
      propose_state orion failed (FlowRun.id flow_run) (world s) = (inl e, w) ->
      events (_propose_failed_state orion flow_run exc s)
      = CallProposeState failed (FlowRun.id flow_run)
        :: (if is_Abort e then []
            else [Log ERROR true (FailedToUpdateState (FlowRun.id flow_run))])) /\
  (forall s1 t1 infrastructure s2 t2 s3 t3,
      _propose_pending_state orion flow_run s = (inr true, s1, t1) ->
      get_infrastructure orion flow_run s1 = (inr infrastructure, s2, t2) ->
      task_group_start orion flow_run infrastructure s2 = (inl exc, s3, t3) ->
      isinstance_Exception orion exc = true ->
      exists rest,
        events (submit_run orion flow_run s)
        = t1 ++ t2 ++ t3
          ++ Log ERROR true (FailedToSubmit (FlowRun.id flow_run))
          :: CallProposeState failed (FlowRun.id flow_run) :: rest).
Proof.
  intros failed. split; [|split].
  - rewrite propose_failed_run.
    destruct (OrionAgent.client (agent s)); [|reflexivity].
    destruct (propose_state _ _ _ _) as [[e|st] w]; reflexivity.
  - intros c e w Hc Hp. rewrite propose_failed_run, Hc.
    unfold failed_for. fold failed. rewrite Hp. reflexivity.
  - intros s1 t1 infrastructure s2 t2 s3 t3 H1 H2 H3 Hexc.
    assert (Hclient : exists c, OrionAgent.client (agent s3) = Some c).
    { pose proof (propose_pending_keeps orion flow_run s) as K1.
      pose proof (get_infrastructure_keeps orion flow_run s1) as K2.
      pose proof (task_group_start_keeps orion flow_run infrastructure s2)
        as K3.
      rewrite H1 in K1. rewrite H2 in K2. rewrite H3 in K3.
      simpl in *.
      rewrite <- K3, <- K2, <- K1.
      destruct (OrionAgent.client (agent s)) as [c|] eqn:Hc;
        [exists c; reflexivity|].
      assert (Hf : result (_propose_pending_state orion flow_run s)
                   = inr false)
        by (apply propose_pending_refused; left; exact Hc).
      rewrite H1 in Hf. discriminate. }
    destruct Hclient as [c Hc].
    unfold submit_run.
    rewrite bind_run, H1. simpl.
    rewrite bind_run, bind_run, H2. simpl.
    rewrite try_run, bind_run, H3. simpl.
    rewrite Hexc. rewrite bind_run. simpl.
    rewrite propose_failed_run, Hc.
    destruct (propose_state orion (failed_for exc) (FlowRun.id flow_run)
                (world s3)) as [[e|st] w] eqn:Hp; simpl;
      rewrite remove_submitting_silent, app_nil_r.
      all: eexists; rewrite <- ?app_assoc; simpl; reflexivity.
Qed.

Lemma submission_failure_reported_witness :
  exists rest,
    events (submit_run (Scripted.server Scripted.submit_fails) Scripted.run7
              (Scripted.at_noon Scripted.submitting7))
    = [CallProposeState Pending 7%N]
      ++ [CallReadDeployment (Some 3%N); CallReadBlockDocument (Some 5%N)]
      ++ [TaskGroupStart Scripted.run7
            (Infrastructure.mk "process" (PDict {[ "env" := PDict ∅ ]})
                               (Some 5%N))]
      ++ Log ERROR true (FailedToSubmit 7%N)
      :: CallProposeState
           (Failed "Submission failed."
              (DataDocument.encode "cloudpickle"
                 (OtherError "image pull failed"))) 7%N
      :: rest.
Proof.
  eapply (proj2 (proj2 (submission_failure_reported
                          (Scripted.server Scripted.submit_fails)
                          Scripted.run7 (OtherError "image pull failed")
                          (Scripted.at_noon Scripted.submitting7))));
    reflexivity.
Defined.

#[export] Instance same_outside_cache_preorder : PreOrder same_outside_cache.
Proof.
  split.
  - intros a. repeat split.
  - intros a b c (H1&H2&H3&H4&H5&H6&H7&H8) (K1&K2&K3&K4&K5&K6&K7&K8).
    repeat split; congruence.
Qed.

#[export] Instance same_cache_preorder : PreOrder same_cache.
Proof.
  split.
  - intros a. split; reflexivity.
  - intros a b c [H1 H2] [K1 K2]. split; congruence.
Qed.

Section Polling.
Context {W : Type} (orion : Orion W).
Implicit Types (s : St W) (flow_run : FlowRun.t).

Lemma now_run s :
  now orion s
  = (inr (read_instant orion s),
     mkSt (agent s) (snd (pendulum_now orion (world s))), []).
Proof.
  unfold now, read_instant. destruct (pendulum_now orion (world s)).
  reflexivity.
Qed.

Lemma load_work_queue_keeps name : keeps eq (load_work_queue orion name).
Proof. unfold load_work_queue. step_through. Qed.

Lemma load_runs_keeps before work_queue acc :
  keeps eq (load_runs orion before work_queue acc).
Proof. unfold load_runs. step_through. Qed.

Lemma get_work_queues_frame {B} (body : WorkQueue.t -> B -> M W B) acc :
  (forall q acc, keeps same_outside_cache (body q acc)) ->
  keeps same_outside_cache (get_work_queues orion body acc).
Proof.
  intros Hb. unfold get_work_queues. step_through;
    try apply Hb;
    try (apply keeps_modify; intro; repeat split).
Qed.

Lemma submit_if_new_run flow_run s :
  submit_if_new flow_run tt s =
  if bool_decide (FlowRun.id flow_run ∈ submitting_flow_run_ids (agent s))
  then (inr tt, s, [Log INFO false (SubmittingFlowRun (FlowRun.id flow_run))])
  else
    let a := with_submitting_flow_run_ids
               (submitting_flow_run_ids (agent s) ∪ {[FlowRun.id flow_run]})
               (agent s) in
    match task_group (agent s) with
    | None =>
        (inl (AttributeError "start_soon"), mkSt a (world s),
         [Log INFO false (SubmittingFlowRun (FlowRun.id flow_run))])
    | Some tasks =>
        (inr tt, mkSt (with_task_group (Some (tasks ++ [flow_run])) a)
                      (world s),
         [Log INFO false (SubmittingFlowRun (FlowRun.id flow_run));
          TaskGroupStartSoon flow_run])
    end.
Proof.
  unfold submit_if_new. destruct s as [a w]. run_code.
  destruct (bool_decide _); [reflexivity|]. cbn.
  destruct (task_group a); reflexivity.
Qed.

Lemma submit_if_new_keeps_cache flow_run u :
  keeps same_cache (submit_if_new flow_run u : M W unit).
Proof.
  unfold submit_if_new. step_through;
    apply keeps_modify; intro; split; reflexivity.
Qed.

Lemma tick_run s :
  get_and_submit_flow_runs orion s =
  if negb (started (agent s)) then
    (inl (RuntimeError
            "Agent is not started. Use `async with OrionAgent()...`"),
     s, [])
  else
    match result (tick_fetch orion s) with
    | inl e => (inl e, final (tick_fetch orion s),
                Log DEBUG false CheckingForFlowRuns :: events (tick_fetch orion s))
    | inr runs =>
        (match result (tick_loop orion s runs) with
         | inl e => inl e
         | inr _ => inr runs
         end,
         final (tick_loop orion s runs),
         Log DEBUG false CheckingForFlowRuns
         :: events (tick_fetch orion s) ++ events (tick_loop orion s runs))
    end.
Proof.
  unfold get_and_submit_flow_runs, tick_loop, tick_fetch, tick_before.
  rewrite bind_run. simpl.
  destruct (started (agent s)); simpl; [|reflexivity].
  rewrite bind_run. simpl. rewrite bind_run, now_run. simpl.
  rewrite bind_run.
  destruct (result (get_work_queues orion _ [] _)) as [e|runs] eqn:Hf;
    simpl; [reflexivity|].
  rewrite bind_run.
  destruct (result (for_each runs submit_if_new () _)) as [e|[]] eqn:Hl;
    simpl; rewrite ?app_nil_r; reflexivity.
Qed.

End Polling.

Lemma count_app p t1 t2 : count p (t1 ++ t2) = (count p t1 + count p t2)%nat.
Proof. unfold count. rewrite List.filter_app, length_app. reflexivity. Qed.

Lemma count_cons p ev t :
  count p (ev :: t) = ((if p ev then 1 else 0) + count p t)%nat.
Proof. unfold count. simpl. destruct (p ev); reflexivity. Qed.

Lemma count_none p t : Forall (fun ev => p ev = false) t -> count p t = 0%nat.
Proof.
  unfold count. induction 1 as [|ev t H _ IH]; simpl; [reflexivity|].
  rewrite H. exact IH.
Qed.

Section Dedup.
Context {W : Type} (orion : Orion W).
Implicit Types (s : St W) (flow_run : FlowRun.t) (i : UUID).

Lemma fetch_no_spawn before (acc : list FlowRun.t) :
  emits no_spawn (get_work_queues orion (load_runs orion before) acc).
Proof.
  unfold get_work_queues, load_runs, load_work_queue.
  step_through; apply emits_emit; intros i; reflexivity.
Qed.

Lemma for_each_cons {A B} (x : A) (l : list A) (body : A -> B -> M W B)
      acc s :
  for_each (x :: l) body acc s =
  match result (body x acc s) with
  | inl e => (inl e, final (body x acc s), events (body x acc s))
  | inr acc' =>
      (result (for_each l body acc' (final (body x acc s))),
       final (for_each l body acc' (final (body x acc s))),
       events (body x acc s)
       ++ events (for_each l body acc' (final (body x acc s))))
  end.
Proof. simpl. apply bind_run. Qed.

(** Going through the runs of one tick. *)
Lemma loop_spawns i (runs : list FlowRun.t) :
  forall s,
    let o := for_each runs submit_if_new tt s in
    (i ∈ submitting_flow_run_ids (agent s) ->
     i ∈ submitting_flow_run_ids (agent (final o)) /\
     count (is_spawn_of i) (events o) = 0%nat) /\
    (count (is_spawn_of i) (events o) <= 1)%nat /\
    (count (is_spawn_of i) (events o) = 1%nat ->
     i ∈ submitting_flow_run_ids (agent (final o))).
Proof.
  induction runs as [|r runs IH]; intros s; cbv zeta.
  - unfold count. simpl. repeat split; try assumption; try lia.
  - rewrite for_each_cons, submit_if_new_run.
    case_bool_decide as Hin; simpl.
    + specialize (IH s). cbv zeta in IH. rewrite count_cons. simpl.
      exact IH.
    + destruct (task_group (agent s)) as [tasks|]; simpl.
      * set (s' := mkSt _ _).
        specialize (IH s'). cbv zeta in IH. rewrite !count_cons. simpl.
        destruct IH as (IH1 & IH2 & IH3).
        assert (Hs' : forall j, j ∈ submitting_flow_run_ids (agent s) ->
                                j ∈ submitting_flow_run_ids (agent s')).
        { intros j Hj. subst s'. simpl. apply elem_of_union_l, Hj. }
        case_bool_decide as Hid.
        -- subst i.
           assert (Hnow : FlowRun.id r ∈ submitting_flow_run_ids (agent s'))
             by (subst s'; simpl; apply elem_of_union_r, elem_of_singleton;
                 reflexivity).
           destruct (IH1 Hnow) as [Hk H0]. rewrite H0.
           split; [intros Hold; contradiction|].
           split; [lia|intros _; exact Hk].
        -- simpl. split; [|split; assumption].
           intros Hold. apply IH1, Hs', Hold.
      * rewrite count_cons. unfold count. simpl.
        split; [intros Hold; split;
                [apply elem_of_union_l, Hold|reflexivity]|].
        split; [lia|discriminate].
Qed.

Lemma loop_spawns_new (runs : list FlowRun.t) flow_run :
  forall s,
    result (for_each runs submit_if_new tt s) = inr tt ->
    In flow_run runs ->
    FlowRun.id flow_run ∉ submitting_flow_run_ids (agent s) ->
    count (is_spawn_of (FlowRun.id flow_run))
          (events (for_each runs submit_if_new tt s)) = 1%nat.
Proof.
  induction runs as [|r runs IH]; intros s Hres Hin Hnew; [destruct Hin|].
  rewrite for_each_cons, submit_if_new_run in *.
  case_bool_decide as Hr; simpl in *.
  - destruct Hin as [->|Hin]; [contradiction|].
    rewrite count_cons. simpl. apply IH; assumption.
  - destruct (task_group (agent s)) as [tasks|]; simpl in *;
      [|discriminate].
    set (s' := mkSt _ _) in *. rewrite !count_cons. simpl.
    destruct (decide (FlowRun.id r = FlowRun.id flow_run)) as [Heq|Hne].
    + assert (Hnow : FlowRun.id flow_run
                     ∈ submitting_flow_run_ids (agent s'))
        by (subst s'; simpl; rewrite <- Heq;
            apply elem_of_union_r, elem_of_singleton; reflexivity).
      destruct (loop_spawns (FlowRun.id flow_run) runs s') as (H1 & _).
      destruct (H1 Hnow) as [_ H0]. rewrite H0.
      rewrite bool_decide_eq_true_2 by assumption. reflexivity.
    + destruct Hin as [->|Hin]; [congruence|].
      rewrite bool_decide_eq_false_2 by assumption. simpl.
      apply IH; try assumption.
      subst s'. simpl. rewrite elem_of_union, elem_of_singleton.
      intros [Hold|Hold]; [contradiction|congruence].
Qed.

Lemma loop_succeeds (runs : list FlowRun.t) :
  forall s, task_group (agent s) <> None ->
            result (for_each runs submit_if_new tt s) = inr tt.
Proof.
  induction runs as [|r runs IH]; intros s Htg; [reflexivity|].
  rewrite for_each_cons, submit_if_new_run.
  case_bool_decide; simpl; [apply IH, Htg|].
  destruct (task_group (agent s)) as [tasks|]; [|congruence].
  simpl. apply IH. simpl. discriminate.
Qed.

Lemma fetch_frame s :
  same_outside_cache (agent s) (agent (final (tick_fetch orion s))).
Proof.
  unfold tick_fetch.
  apply (get_work_queues_frame orion
           (load_runs orion (tick_before orion s)) []
           ltac:(intros; eapply keeps_weaken;
                 [|apply load_runs_keeps]; intros ? ? ->; reflexivity)
           (mkSt (agent s) (snd (pendulum_now orion (world s))))).
Qed.

Lemma fetch_spawns i s :
  count (is_spawn_of i) (events (tick_fetch orion s)) = 0%nat.
Proof.
  unfold tick_fetch. apply count_none.
  eapply Forall_impl; [apply (fetch_no_spawn (tick_before orion s) [])|].
  intros ev H. apply H.
Qed.

(** Spawns of one tick. *)
Lemma tick_spawns i s :
  let o := get_and_submit_flow_runs orion s in
  (i ∈ submitting_flow_run_ids (agent s) ->
   i ∈ submitting_flow_run_ids (agent (final o)) /\
   count (is_spawn_of i) (events o) = 0%nat) /\
  (count (is_spawn_of i) (events o) <= 1)%nat /\
  (count (is_spawn_of i) (events o) = 1%nat ->
   i ∈ submitting_flow_run_ids (agent (final o))).
Proof.
  cbv zeta. rewrite tick_run.
  destruct (started (agent s)); simpl.
  2: { unfold count. simpl. repeat split; try assumption; try lia. }
  pose proof (fetch_frame s) as (_ & _ & HS & _).
  pose proof (fetch_spawns i s) as H0.
  destruct (result (tick_fetch orion s)) as [e|runs]; simpl.
  - rewrite count_cons, H0, HS. simpl.
    repeat split; try assumption; try lia.
  - rewrite count_cons, count_app, H0. simpl.
    unfold tick_loop. rewrite <- HS. apply loop_spawns.
Qed.

End Dedup.

#[export] Instance same_setup_preorder : PreOrder same_setup.
Proof.
  split.
  - intros a. repeat split.
  - intros a b c (H1&H2&H3&H4&H5&H6) (K1&K2&K3&K4&K5&K6).
    repeat split; congruence.
Qed.

#[export] Instance removes_preorder i : PreOrder (removes i).
Proof.
  split.
  - intros a. split; [reflexivity|]. intros j Hj _. exact Hj.
  - intros a b c [H1 H2] [K1 K2]. split; [congruence|].
    intros j Hj Hne. apply K2; [apply H2|]; assumption.
Qed.

Section Lifetime.
Context {W : Type} (orion : Orion W).
Implicit Types (s : St W) (flow_run : FlowRun.t) (i : UUID).

Lemma remove_submitting_run i s :
  remove_submitting i s =
  if bool_decide (i ∈ submitting_flow_run_ids (agent s)) then
    (inr tt,
     mkSt (with_submitting_flow_run_ids
             (submitting_flow_run_ids (agent s) ∖ {[i]}) (agent s))
          (world s), [])
  else (inl (KeyError (pretty i)), s, []).
Proof.
  unfold remove_submitting. destruct s as [a w]. run_code.
  destruct (bool_decide _); reflexivity.
Qed.

(** The coordinator changes the agent only by removing the identifier. *)
Lemma submit_run_keeps R `{!PreOrder R} flow_run :
  (forall a, R a (with_submitting_flow_run_ids
                    (submitting_flow_run_ids a ∖ {[FlowRun.id flow_run]})
                    a)) ->
  keeps R (submit_run orion flow_run).
Proof.
  intros Hrm.
  assert (Heq : forall A (m : M W A), keeps eq m -> keeps R m).
  { intros A m. apply keeps_weaken. intros ? ? ->. reflexivity. }
  unfold submit_run. apply keeps_bind; [apply _| |].
  - apply Heq, propose_pending_keeps.
  - intros ready. apply keeps_bind; [apply _| |].
    + destruct ready; [|apply keeps_ret; apply _].
      apply keeps_bind; [apply _| |].
      * apply Heq, get_infrastructure_keeps.
      * intros infrastructure. apply keeps_try; [apply _| |].
        -- apply keeps_bind; [apply _| |].
           ++ apply Heq, task_group_start_keeps.
           ++ intros _. apply keeps_emit; apply _.
        -- intros e. destruct (isinstance_Exception orion e); [|exact I].
           apply keeps_bind; [apply _| |].
           ++ apply keeps_emit; apply _.
           ++ intros _. apply Heq, propose_failed_keeps.
    + intros _. unfold remove_submitting. step_through.
      apply keeps_modify, Hrm.
Qed.

Lemma submit_run_removes flow_run :
  keeps (removes (FlowRun.id flow_run)) (submit_run orion flow_run).
Proof.
  apply submit_run_keeps; [apply _|]. intros a. split; [reflexivity|].
  intros j Hj Hne. simpl. apply elem_of_difference. split; [assumption|].
  rewrite elem_of_singleton. assumption.
Qed.

Lemma submit_run_same_cache flow_run :
  keeps same_cache (submit_run orion flow_run).
Proof.
  apply submit_run_keeps; [apply _|]. intros a. split; reflexivity.
Qed.

Lemma submit_run_same_setup flow_run :
  keeps same_setup (submit_run orion flow_run).
Proof.
  apply submit_run_keeps; [apply _|]. intros a. repeat split.
Qed.

(** A coordinator that returns has removed the identifier. *)
Lemma submit_run_returns flow_run s :
  result (submit_run orion flow_run s) = inr tt ->
  FlowRun.id flow_run
  ∉ submitting_flow_run_ids (agent (final (submit_run orion flow_run s))).
Proof.
  unfold submit_run. rewrite bind_run.
  destruct (result (_propose_pending_state orion flow_run s))
    as [e|ready]; simpl; [discriminate|].
  rewrite bind_run.
  match goal with
  | |- context [result (?m ?st)] =>
      destruct (result (m st)) as [e|[]]; simpl; [discriminate|];
      generalize (final (m st)); intros s1
  end.
  rewrite remove_submitting_run.
  case_bool_decide; simpl; [|discriminate].
  intros _. rewrite elem_of_difference, elem_of_singleton. tauto.
Qed.

Lemma outside_run {A} (op : W -> (exn + A) * W) s :
  outside op s
  = (fst (op (world s)), mkSt (agent s) (snd (op (world s))), []).
Proof. unfold outside. destruct (op (world s)). reflexivity. Qed.

(** *** Shutdown *)

Lemma await_coordinators_keeps R `{!PreOrder R} (tasks : list FlowRun.t) :
  (forall v a, R a (with_task_group v a)) ->
  (forall flow_run, keeps R (submit_run orion flow_run)) ->
  keeps R (await_coordinators orion tasks).
Proof.
  intros Htg Hsub. induction tasks as [|r tasks IH]; simpl.
  - apply keeps_ret; apply _.
  - apply keeps_bind; [apply _|apply keeps_modify; intro; apply Htg|].
    intros _. apply keeps_bind; [apply _|apply Hsub|].
    intros _. apply IH.
Qed.

Lemma shutdown_run s :
  shutdown orion s =
  let s0 := mkSt (with_started false (agent s)) (world s) in
  match task_group (agent s) with
  | None => (inl (AttributeError "__aexit__"), s0, [])
  | Some tasks =>
      let o := await_coordinators orion tasks s0 in
      match result o with
      | inl e => (inl e, final o, TaskGroupExit :: events o)
      | inr _ =>
          match client (agent (final o)) with
          | None => (inl (AttributeError "__aexit__"), final o,
                     TaskGroupExit :: events o)
          | Some _ =>
              match client_aexit orion (world (final o)) with
              | (inl e, w) =>
                  (inl e, mkSt (agent (final o)) w,
                   TaskGroupExit :: events o ++ [ClientExit])
              | (inr _, w) =>
                  (inr tt, mkSt (cleared (agent (final o))) w,
                   TaskGroupExit :: events o ++ [ClientExit])
              end
          end
      end
  end.
Proof.
  unfold shutdown. rewrite bind_run. simpl. rewrite bind_run. simpl.
  destruct (task_group (agent s)) as [tasks|]; simpl; [|reflexivity].
  rewrite bind_run. simpl. rewrite bind_run.
  set (o := await_coordinators orion tasks _).
  destruct (result o) as [e|[]]; simpl; [reflexivity|].
  rewrite bind_run. simpl.
  destruct (client (agent (final o))) as [c|]; simpl;
    [|rewrite app_nil_r; reflexivity].
  rewrite bind_run. simpl. rewrite bind_run, outside_run.
  destruct (client_aexit orion (world (final o))) as [[e|[]] w]; simpl;
    [reflexivity|].
  unfold cleared. run_code. rewrite ?app_nil_r. reflexivity.
Qed.

End Lifetime.

Section Invariants.
Context {W : Type} (orion : Orion W).
Implicit Types (s : St W) (flow_run : FlowRun.t) (i : UUID).

Lemma one_coordinator_same_tasks a a' :
  task_group a' = task_group a ->
  submitting_flow_run_ids a' = submitting_flow_run_ids a ->
  one_coordinator_per_run a -> one_coordinator_per_run a'.
Proof.
  unfold one_coordinator_per_run, pending_ids. intros -> ->. tauto.
Qed.

Lemma one_coordinator_none a :
  pending_ids a = [] -> one_coordinator_per_run a.
Proof.
  unfold one_coordinator_per_run. intros ->. split; [constructor|].
  intros j [].
Qed.

(** Taking a coordinator from the task group and running it. *)
Lemma one_coordinator_popped a a2 flow_run rest :
  one_coordinator_per_run a ->
  task_group a = Some (flow_run :: rest) ->
  removes (FlowRun.id flow_run) (with_task_group (Some rest) a) a2 ->
  one_coordinator_per_run a2 /\ task_group a2 = Some rest.
Proof.
  unfold one_coordinator_per_run, pending_ids.
  intros [Hnd Hin] Htg [Htg2 Hrm]. simpl in *. rewrite Htg in *.
  rewrite Htg2. simpl in *. apply NoDup_cons in Hnd as [Hfresh Hnd].
  split; [|reflexivity]. split; [assumption|].
  intros j Hj. apply Hrm.
  - apply Hin. right. assumption.
  - intros ->. apply Hfresh. apply list_elem_of_In. assumption.
Qed.

Lemma loop_one_coordinator (runs : list FlowRun.t) :
  forall s,
    one_coordinator_per_run (agent s) ->
    one_coordinator_per_run
      (agent (final (for_each runs submit_if_new tt s))).
Proof.
  induction runs as [|r runs IH]; intros s Hinv; [exact Hinv|].
  rewrite for_each_cons, submit_if_new_run.
  case_bool_decide as Hr; simpl; [apply IH, Hinv|].
  destruct (task_group (agent s)) as [tasks|] eqn:Htg; simpl.
  - apply IH. simpl.
    destruct Hinv as [Hnd Hin]. unfold one_coordinator_per_run, pending_ids
      in *. simpl. rewrite Htg in *. rewrite map_app. simpl. split.
    + apply NoDup_app. split; [assumption|]. split.
      * intros j Hj Hj'. apply list_elem_of_In in Hj.
        apply list_elem_of_singleton in Hj'. subst j.
        apply Hr, Hin, Hj.
      * apply NoDup_singleton.
    + intros j Hj. apply in_app_or in Hj as [Hj|[<-|[]]].
      * apply elem_of_union_l, Hin, Hj.
      * apply elem_of_union_r, elem_of_singleton. reflexivity.
  - apply one_coordinator_none. unfold pending_ids. simpl. rewrite Htg.
    reflexivity.
Qed.

Lemma tick_one_coordinator s :
  one_coordinator_per_run (agent s) ->
  one_coordinator_per_run (agent (final (get_and_submit_flow_runs orion s))).
Proof.
  intros Hinv. rewrite tick_run.
  destruct (started (agent s)); simpl; [|exact Hinv].
  pose proof (fetch_frame orion s) as (_ & _ & HS & _ & Htg & _).
  assert (Hf : one_coordinator_per_run (agent (final (tick_fetch orion s))))
    by (eapply one_coordinator_same_tasks; eassumption).
  destruct (result (tick_fetch orion s)) as [e|runs]; simpl; [exact Hf|].
  apply loop_one_coordinator, Hf.
Qed.

Lemma coordinator_one_coordinator s :
  one_coordinator_per_run (agent s) ->
  one_coordinator_per_run (agent (final (run_next_coordinator orion s))).
Proof.
  intros Hinv. unfold run_next_coordinator. rewrite bind_run. simpl.
  destruct (task_group (agent s)) as [[|r rest]|] eqn:Htg; simpl;
    try exact Hinv.
  rewrite bind_run. simpl.
  set (s1 := mkSt _ _).
  pose proof (submit_run_removes orion r s1) as Hrm.
  destruct (one_coordinator_popped _ _ _ _ Hinv Htg Hrm) as [H _].
  destruct (result (submit_run orion r s1)); exact H.
Qed.

Lemma await_one_coordinator (tasks : list FlowRun.t) :
  forall s,
    task_group (agent s) = Some tasks ->
    one_coordinator_per_run (agent s) ->
    one_coordinator_per_run
      (agent (final (await_coordinators orion tasks s))).
Proof.
  induction tasks as [|r tasks IH]; intros s Htg Hinv; [exact Hinv|].
  simpl. rewrite bind_run. simpl. rewrite bind_run.
  set (s1 := mkSt _ _).
  pose proof (submit_run_removes orion r s1) as Hrm.
  destruct (one_coordinator_popped _ _ _ _ Hinv Htg Hrm) as [H Htg2].
  destruct (result (submit_run orion r s1)); simpl; [exact H|].
  apply IH; assumption.
Qed.

Lemma shutdown_one_coordinator s :
  one_coordinator_per_run (agent s) ->
  one_coordinator_per_run (agent (final (shutdown orion s))).
Proof.
  intros Hinv. rewrite shutdown_run. cbv zeta.
  set (s0 := mkSt (with_started false (agent s)) (world s)).
  assert (H0 : one_coordinator_per_run (agent s0))
    by (eapply one_coordinator_same_tasks; [| |exact Hinv]; reflexivity).
  destruct (task_group (agent s)) as [tasks|] eqn:Htg; simpl; [|exact H0].
  assert (H1 : one_coordinator_per_run
                 (agent (final (await_coordinators orion tasks s0))))
    by (apply await_one_coordinator; [exact Htg|exact H0]).
  destruct (result (await_coordinators orion tasks s0)); simpl; [exact H1|].
  destruct (client (agent (final _))); simpl; [|exact H1].
  destruct (client_aexit orion _) as [[e|[]] w]; simpl; [exact H1|].
  apply one_coordinator_none. reflexivity.
Qed.

Lemma start_task_group s :
  task_group (agent (final (start orion s))) = Some [].
Proof.
  unfold start. repeat (rewrite bind_run; simpl).
  rewrite outside_run. simpl.
  destruct (client_aenter orion (world s)) as [[e|[]] w]; simpl;
    [reflexivity|].
  destruct (default_infrastructure (agent s)) as [infra|]; simpl;
    [|reflexivity].
  destruct (default_infrastructure_document_id (agent s)); simpl;
    [reflexivity|].
  repeat (rewrite bind_run; simpl). rewrite outside_run. simpl.
  destruct (save_anonymous orion infra w) as [[e|doc_id] w']; reflexivity.
Qed.

Lemma step_one_coordinator act s :
  one_coordinator_per_run (agent s) ->
  one_coordinator_per_run (agent (final (step orion act s))).
Proof.
  intros Hinv. destruct act; simpl.
  - apply one_coordinator_none. unfold pending_ids.
    rewrite start_task_group. reflexivity.
  - rewrite bind_run.
    pose proof (tick_one_coordinator s Hinv) as H.
    destruct (result (get_and_submit_flow_runs orion s)); exact H.
  - apply coordinator_one_coordinator, Hinv.
  - apply shutdown_one_coordinator, Hinv.
Qed.

Lemma run_one_coordinator (acts : list action) :
  forall s,
    one_coordinator_per_run (agent s) ->
    one_coordinator_per_run (agent (fst (run orion acts s))).
Proof.
  induction acts as [|act acts IH]; intros s Hinv; [exact Hinv|].
  simpl. pose proof (step_one_coordinator act s Hinv) as H1.
  destruct (step orion act s) as [[r s1] t1]. simpl in H1.
  specialize (IH s1 H1). destruct (run orion acts s1) as [s2 t2].
  exact IH.
Qed.

End Invariants.

(** C6, as stated, fails.  With a server that answers every claim with a
    Running state, the coordinator of run 7 completes between two ticks and
    the second tick spawns it again; with a server that grants every claim,
    run 7 is dispatched twice. *)
Lemma at_most_once_fails :
  count (is_spawn_of 7%N)
        (snd (run (Scripted.server Scripted.claim_lost)
                  [Tick; Coordinator; Tick]
                  (Scripted.at_noon Scripted.started))) = 2%nat /\
  count (is_dispatch_of 7%N)
        (snd (run (Scripted.server Scripted.happy)
                  [Tick; Coordinator; Tick; Coordinator]
                  (Scripted.at_noon Scripted.started))) = 2%nat.
Proof. split; vm_compute; reflexivity. Qed.

(** C6, amended.  Over every sequence of starts, ticks, coordinator runs and
    shutdowns the task group holds at most one coordinator per run, and the
    identifier of each is in [submitting_flow_run_ids].  A tick that finds
    an identifier in [submitting_flow_run_ids] spawns no coordinator for it.
    Two consecutive ticks, with no coordinator completing in between, spawn
    at most one coordinator per identifier, and exactly one for a run that
    the first tick returns and that was not in flight before. *)
Theorem one_coordinator_in_flight {W} (orion : Orion W) :
  (forall acts (s : St W),
      one_coordinator_per_run (agent s) ->
      one_coordinator_per_run (agent (fst (run orion acts s)))) /\
  (forall (s : St W) i,
      i ∈ submitting_flow_run_ids (agent s) ->
      count (is_spawn_of i) (events (get_and_submit_flow_runs orion s))
      = 0%nat) /\
  (forall (s : St W) i,
      let o1 := get_and_submit_flow_runs orion s in
      let o2 := get_and_submit_flow_runs orion (final o1) in
      (count (is_spawn_of i) (events o1 ++ events o2) <= 1)%nat) /\
  (forall (s : St W) runs flow_run,
      let o1 := get_and_submit_flow_runs orion s in
      let o2 := get_and_submit_flow_runs orion (final o1) in
      result o1 = inr runs ->
      In flow_run runs ->
      FlowRun.id flow_run ∉ submitting_flow_run_ids (agent s) ->
      count (is_spawn_of (FlowRun.id flow_run)) (events o1 ++ events o2)
      = 1%nat).
Proof.
  split; [|split; [|split]].
  - intros acts s. apply run_one_coordinator.
  - intros s i Hi. apply (tick_spawns orion i s), Hi.
  - intros s i o1 o2. rewrite count_app.
    destruct (tick_spawns orion i s) as (_ & Hle & Hone).
    destruct (tick_spawns orion i (final o1)) as (Hskip & Hle2 & _).
    fold o1 in Hle, Hone. fold o2 in Hskip, Hle2.
    destruct (count (is_spawn_of i) (events o1)) as [|[|n]] eqn:E1.
    + simpl. exact Hle2.
    + destruct (Hskip (Hone eq_refl)) as [_ ->]. lia.
    + lia.
  - intros s runs flow_run o1 o2 Hres Hin Hnew. rewrite count_app.
    assert (H1 : count (is_spawn_of (FlowRun.id flow_run)) (events o1)
                 = 1%nat).
    { subst o1. rewrite tick_run in *.
      pose proof (fetch_frame orion s) as (_ & _ & HS & _).
      pose proof (fetch_spawns orion (FlowRun.id flow_run) s) as H0.
      destruct (started (agent s)); simpl in *; [|discriminate].
      destruct (result (tick_fetch orion s)) as [e|runs']; simpl in *;
        [discriminate|].
      destruct (result (tick_loop orion s runs')) as [e|[]] eqn:Hloop;
        simpl in *; [discriminate|].
      injection Hres as ->.
      rewrite count_cons, count_app, H0. simpl.
      apply loop_spawns_new; [exact Hloop|exact Hin|].
      rewrite HS. exact Hnew. }
    destruct (tick_spawns orion (FlowRun.id flow_run) s) as (_ & _ & Hone).
    destruct (tick_spawns orion (FlowRun.id flow_run) (final o1))
      as (Hskip & _ & _).
    fold o1 in Hone. fold o2 in Hskip.
    destruct (Hskip (Hone H1)) as [_ ->]. rewrite H1. reflexivity.
Qed.

Lemma one_coordinator_in_flight_witness :
  let o1 := get_and_submit_flow_runs (Scripted.server Scripted.happy)
              (Scripted.at_noon Scripted.started) in
  let o2 := get_and_submit_flow_runs (Scripted.server Scripted.happy)
              (final o1) in
  count (is_spawn_of 7%N) (events o1 ++ events o2) = 1%nat.
Proof.
  apply (proj2 (proj2 (proj2 (one_coordinator_in_flight
                                (Scripted.server Scripted.happy))))
               (Scripted.at_noon Scripted.started) [Scripted.run7]
               Scripted.run7).
  - reflexivity.
  - left. reflexivity.
  - simpl. apply not_elem_of_empty.
Defined.

Section ShutdownFacts.
Context {W : Type} (orion : Orion W).
Implicit Types (s : St W).

Lemma await_same_setup tasks :
  keeps same_setup (await_coordinators orion tasks).
Proof.
  apply await_coordinators_keeps; [apply _| |].
  - intros v a. repeat split.
  - intros flow_run. apply submit_run_same_setup.
Qed.

End ShutdownFacts.

(** C8, as stated, fails: a second [shutdown] after a completed one does
    not succeed. *)
Lemma repeated_shutdown_fails :
  let once := shutdown (Scripted.server Scripted.happy)
                (Scripted.at_noon Scripted.started) in
  result once = inr tt /\
  result (shutdown (Scripted.server Scripted.happy) (final once))
  = inl (AttributeError "__aexit__").
Proof. split; vm_compute; reflexivity. Qed.

(** C8, amended.  A [shutdown] that returns leaves the agent reset: the
    configuration is kept, [submitting_flow_run_ids] and the work-queue
    cache are empty, no expiration is set, the client and the task group
    are dropped and the agent is not started.  A second [shutdown] then
    raises [AttributeError], records nothing and leaves the agent state
    unchanged. *)
Theorem shutdown_resets {W} (orion : Orion W) (s s' : St W)
        (trace : list event) :
  shutdown orion s = (inr tt, s', trace) ->
  agent s' = reset (agent s) /\
  shutdown orion s' = (inl (AttributeError "__aexit__"), s', []).
Proof.
  intros H. rewrite shutdown_run in H. cbv zeta in H.
  destruct (task_group (agent s)) as [tasks|]; [|discriminate].
  set (s0 := mkSt (with_started false (agent s)) (world s)) in *.
  pose proof (await_same_setup orion tasks s0) as (H1&H2&H3&H4&H5&H6).
  destruct (result (await_coordinators orion tasks s0)); [discriminate|].
  destruct (client (agent (final _))); [|discriminate].
  destruct (client_aexit orion _) as [[e|[]] w]; [discriminate|].
  injection H as <- _.
  assert (Hagent : cleared (agent (final (await_coordinators orion tasks s0)))
                   = reset (agent s)).
  { unfold cleared, reset. rewrite H1, H2, H3, H5, H6. reflexivity. }
  split; [exact Hagent|].
  rewrite shutdown_run. cbv zeta. simpl. rewrite Hagent. reflexivity.
Qed.

Lemma shutdown_resets_witness :
  agent (final (shutdown (Scripted.server Scripted.happy)
                  (Scripted.at_noon Scripted.submitting7)))
  = reset Scripted.submitting7 /\
  shutdown (Scripted.server Scripted.happy)
    (final (shutdown (Scripted.server Scripted.happy)
              (Scripted.at_noon Scripted.submitting7)))
  = (inl (AttributeError "__aexit__"),
     final (shutdown (Scripted.server Scripted.happy)
              (Scripted.at_noon Scripted.submitting7)), []).
Proof.
  eapply (shutdown_resets (Scripted.server Scripted.happy)
            (Scripted.at_noon Scripted.submitting7)).
  vm_compute. reflexivity.
Defined.

(** C10.  A tick of a started agent returns what polling the queues
    returned, whatever is in [submitting_flow_run_ids]: a run whose
    identifier is already there is in the returned list although no
    coordinator is spawned for it.  Polling a queue that is not paused
    appends the server's answer to the list. *)
Theorem tick_returns_all_fetched {W} (orion : Orion W) (s : St W)
        (tasks : list FlowRun.t) :
  started (agent s) = true ->
  task_group (agent s) = Some tasks ->
  result (get_and_submit_flow_runs orion s) = result (tick_fetch orion s) /\
  (forall runs flow_run,
      result (tick_fetch orion s) = inr runs ->
      In flow_run runs ->
      FlowRun.id flow_run ∈ submitting_flow_run_ids (agent s) ->
      result (get_and_submit_flow_runs orion s) = inr runs /\
      count (is_spawn_of (FlowRun.id flow_run))
            (events (get_and_submit_flow_runs orion s)) = 0%nat) /\
  (forall before work_queue acc (s1 : St W) c queue_runs w,
      WorkQueue.is_paused work_queue = false ->
      client (agent s1) = Some c ->
      get_runs_in_work_queue orion (WorkQueue.id work_queue) 10 before
        (world s1) = (inr queue_runs, w) ->
      result (load_runs orion before work_queue acc s1)
      = inr (acc ++ queue_runs)).
Proof.
  intros Hstarted Htg.
  assert (Hres : result (get_and_submit_flow_runs orion s)
                 = result (tick_fetch orion s)).
  { rewrite tick_run, Hstarted. simpl.
    destruct (result (tick_fetch orion s)) as [e|runs] eqn:Hf; simpl;
      [reflexivity|].
    unfold tick_loop. rewrite loop_succeeds; [reflexivity|].
    pose proof (fetch_frame orion s) as (_ & _ & _ & _ & Htg' & _).
    rewrite Htg', Htg. discriminate. }
  split; [exact Hres|]. split.
  - intros runs flow_run Hf Hin Hid. split; [congruence|].
    apply (tick_spawns orion (FlowRun.id flow_run) s), Hid.
  - intros before work_queue acc s1 c queue_runs w Hp Hc Hget.
    unfold load_runs. rewrite Hp. destruct s1 as [a1 w1]. simpl in *.
    run_code. rewrite Hc. simpl. rewrite Hget. reflexivity.
Qed.

Lemma tick_returns_all_fetched_witness :
  result (get_and_submit_flow_runs (Scripted.server Scripted.happy)
            (Scripted.at_noon Scripted.submitting7))
  = inr [Scripted.run7] /\
  count (is_spawn_of 7%N)
        (events (get_and_submit_flow_runs (Scripted.server Scripted.happy)
                   (Scripted.at_noon Scripted.submitting7))) = 0%nat.
Proof.
  apply (proj1 (proj2 (tick_returns_all_fetched
                         (Scripted.server Scripted.happy)
                         (Scripted.at_noon Scripted.submitting7)
                         [Scripted.run7] eq_refl eq_refl))
               [Scripted.run7] Scripted.run7).
  - reflexivity.
  - left. reflexivity.
  - simpl. apply elem_of_singleton. reflexivity.
Defined.

Section ResolutionFacts.
Context {W : Type} (orion : Orion W).

(** An exception raised while the infrastructure is resolved leaves the
    coordinator at once: nothing is reported and the identifier stays. *)
Lemma submit_run_resolution_raises flow_run (s s1 s2 : St W) t1 t2 e :
  _propose_pending_state orion flow_run s = (inr true, s1, t1) ->
  get_infrastructure orion flow_run s1 = (inl e, s2, t2) ->
  submit_run orion flow_run s = (inl e, s2, t1 ++ t2) /\
  submitting_flow_run_ids (agent s2) = submitting_flow_run_ids (agent s).
Proof.
  intros H1 H2. split.
  - unfold submit_run. rewrite bind_run, H1. simpl.
    rewrite bind_run, bind_run, H2. reflexivity.
  - pose proof (propose_pending_keeps orion flow_run s) as K1.
    pose proof (get_infrastructure_keeps orion flow_run s1) as K2.
    rewrite H1 in K1. rewrite H2 in K2. simpl in *. congruence.
Qed.

End ResolutionFacts.

(** C1 fails on the code.  The server grants the claim of run 7 and the
    deployment carries an override whose first segment is not in the
    document: after the tick and the coordinator, the task group holds no
    coordinator any more and the identifier is still in
    [submitting_flow_run_ids]. *)
Lemma identifier_kept_when_resolution_raises :
  let after := fst (run (Scripted.server Scripted.bad_override)
                        [Tick; Coordinator]
                        (Scripted.at_noon Scripted.started)) in
  task_group (agent after) = Some [] /\
  bool_decide (7%N ∈ submitting_flow_run_ids (agent after)) = true.
Proof. split; vm_compute; reflexivity. Qed.

(** C2 fails on the code.  On the same input the exception raised while
    resolving the infrastructure leaves the coordinator, and no Failed state
    is proposed. *)
Lemma resolution_error_escapes :
  let o := submit_run (Scripted.server Scripted.bad_override) Scripted.run7
             (Scripted.at_noon Scripted.submitting7) in
  result o = inl (KeyError "resources") /\
  existsb is_failed_proposal (events o) = false.
Proof. split; vm_compute; reflexivity. Qed.

#[export] Instance same_expiration_preorder : PreOrder same_expiration.
Proof.
  split.
  - intros a. reflexivity.
  - intros a b c H K. unfold same_expiration in *. congruence.
Qed.

Section CacheFacts.
Context {W : Type} (orion : Orion W).
Implicit Types (s : St W).

Lemma get_work_queues_run {B} (body : WorkQueue.t -> B -> M W B) acc s :
  get_work_queues orion body acc s =
  let now := read_instant orion s in
  let w := snd (pendulum_now orion (world s)) in
  if bool_decide
       (default now (_work_queue_cache_expiration (agent s)) > now)
  then for_each (_work_queue_cache (agent s)) body acc (mkSt (agent s) w)
  else for_each (work_queues (agent s)) (reload orion body) acc
         (mkSt (with_cache_expiration (Some (add_seconds now 30))
                  (with_cache [] (agent s))) w).
Proof.
  unfold get_work_queues. rewrite bind_run, now_run. simpl.
  rewrite bind_run. simpl.
  destruct (bool_decide _); simpl.
  - rewrite <- run_eta. reflexivity.
  - repeat (rewrite bind_run; simpl). rewrite <- run_eta. reflexivity.
Qed.






(** *** The cache over the life of the agent *)




Lemma coordinator_same_cache : keeps same_cache (run_next_coordinator orion).
Proof.
  unfold run_next_coordinator. apply keeps_bind; [apply _| |].
  - apply keeps_get_agent; apply _.
  - intros a. destruct (task_group a) as [[|r rest]|];
      try (apply keeps_ret; apply _).
    apply keeps_bind; [apply _| |].
    + apply keeps_modify. intro. split; reflexivity.
    + intros _. apply submit_run_same_cache.
Qed.




End CacheFacts.




Section PollingFacts.
Context {W : Type} (orion : Orion W).
Implicit Types (s : St W).

Lemma polled_mono before cache cache' ev :
  (forall q, In q cache -> In q cache') ->
  polled before cache ev -> polled before cache' ev.
Proof.
  intros Hsub H Hcall. destruct (H Hcall) as (q & Hq & Hrest).
  exists q. split; [apply Hsub, Hq|exact Hrest].
Qed.

Lemma polled_other before cache ev :
  is_get_runs_call ev = false -> polled before cache ev.
Proof. intros H Hcall. congruence. Qed.

Lemma load_work_queue_calls name :
  emits (fun ev => is_get_runs_call ev = false)
        (load_work_queue orion name).
Proof. unfold load_work_queue. step_through; apply emits_emit; reflexivity. Qed.

Lemma load_runs_calls before q (acc : list FlowRun.t) :
  emits (polled before [q]) (load_runs orion before q acc).
Proof.
  unfold load_runs. destruct (WorkQueue.is_paused q) eqn:Hp.
  - step_through. apply emits_emit. apply polled_other. reflexivity.
  - step_through; apply emits_emit;
      try (apply polled_other; reflexivity).
    intros _. exists q. repeat split; [left; reflexivity|exact Hp].
Qed.

(** Serving the cached queues. *)
Lemma cached_calls before (cache : list WorkQueue.t) :
  forall (acc : list FlowRun.t) s,
    Forall (polled before cache)
           (events (for_each cache (load_runs orion before) acc s)).
Proof.
  induction cache as [|q cache IH]; intros acc s; [constructor|].
  rewrite for_each_cons.
  pose proof (load_runs_calls before q acc s) as Hq.
  assert (Hq' : Forall (polled before (q :: cache))
                       (events (load_runs orion before q acc s))).
  { eapply Forall_impl; [exact Hq|]. intros ev. apply polled_mono.
    intros q' [<-|[]]. left. reflexivity. }
  destruct (result (load_runs orion before q acc s)) as [e|acc']; simpl;
    [exact Hq'|].
  apply Forall_app. split; [exact Hq'|].
  eapply Forall_impl; [apply IH|]. intros ev. apply polled_mono.
  intros q' Hin. right. exact Hin.
Qed.

(** One round of the reload loop appends at most one queue to the cache,
    and polls only that one. *)
Lemma reload_calls before name (acc : list FlowRun.t) s :
  let o := reload orion (load_runs orion before) name acc s in
  (exists added,
      _work_queue_cache (agent (final o))
      = _work_queue_cache (agent s) ++ added) /\
  Forall (polled before (_work_queue_cache (agent (final o)))) (events o).
Proof.
  cbv zeta. unfold reload. rewrite bind_run.
  pose proof (load_work_queue_keeps orion name s) as Hsame.
  pose proof (load_work_queue_calls name s) as Hquiet.
  assert (Hq : forall cache,
             Forall (polled before cache)
                    (events (load_work_queue orion name s))).
  { intros cache. eapply Forall_impl; [exact Hquiet|].
    intros ev. apply polled_other. }
  destruct (result (load_work_queue orion name s)) as [e|[q|]]; simpl.
  - split; [exists []; rewrite app_nil_r, Hsame; reflexivity|apply Hq].
  - rewrite bind_run. simpl.
    set (s2 := mkSt _ _).
    pose proof (load_runs_keeps orion before q acc s2) as Hsame2.
    assert (Hcache : _work_queue_cache
                       (agent (final (load_runs orion before q acc s2)))
                     = _work_queue_cache (agent s) ++ [q]).
    { rewrite <- Hsame2. subst s2. simpl. rewrite <- Hsame. reflexivity. }
    split; [exists [q]; exact Hcache|].
    apply Forall_app. split; [apply Hq|].
    eapply Forall_impl; [apply load_runs_calls|].
    intros ev. apply polled_mono. intros q' [<-|[]].
    rewrite Hcache. apply in_or_app. right. left. reflexivity.
  - rewrite app_nil_r.
    split; [exists []; rewrite app_nil_r, Hsame; reflexivity|apply Hq].
Qed.

Lemma reloaded_calls before (names : list string) :
  forall (acc : list FlowRun.t) s,
    let o := for_each names (reload orion (load_runs orion before)) acc s in
    (exists added,
        _work_queue_cache (agent (final o))
        = _work_queue_cache (agent s) ++ added) /\
    Forall (polled before (_work_queue_cache (agent (final o)))) (events o).
Proof.
  induction names as [|name names IH]; intros acc s; cbv zeta.
  - simpl. split; [exists []; rewrite app_nil_r; reflexivity|constructor].
  - rewrite for_each_cons.
    destruct (reload_calls before name acc s) as [[added1 Hc1] He1].
    destruct (result (reload orion (load_runs orion before) name acc s))
      as [e|acc']; simpl.
    + split; [exists added1; exact Hc1|exact He1].
    + destruct (IH acc' (final (reload orion (load_runs orion before)
                                  name acc s)))
        as [[added2 Hc2] He2].
      split.
      * exists (added1 ++ added2). rewrite Hc2, Hc1, app_assoc.
        reflexivity.
      * apply Forall_app. split; [|exact He2].
        eapply Forall_impl; [exact He1|]. intros ev. apply polled_mono.
        intros q Hin. rewrite Hc2. apply in_or_app. left. exact Hin.
Qed.

Lemma fetch_calls before (acc : list FlowRun.t) s :
  let o := get_work_queues orion (load_runs orion before) acc s in
  Forall (polled before (_work_queue_cache (agent (final o)))) (events o).
Proof.
  cbv zeta. rewrite get_work_queues_run. cbv zeta.
  destruct (bool_decide _).
  - rewrite <- (keeps_for_each eq _ (load_runs orion before)
                  (load_runs_keeps orion before) acc (mkSt _ _)).
    simpl. apply cached_calls.
  - apply reloaded_calls.
Qed.

Lemma loop_calls (runs : list FlowRun.t) s :
  Forall (fun ev => is_get_runs_call ev = false)
         (events (for_each runs submit_if_new tt s)).
Proof.
  apply (emits_for_each (fun ev => is_get_runs_call ev = false) runs
           submit_if_new).
  intros r u. unfold submit_if_new. step_through;
    apply emits_emit; reflexivity.
Qed.

End PollingFacts.



(** * Further properties of the override loop *)

Section OverrideLaws.
Import Override.

Lemma split_cons sep c rest :
  split sep (String c rest) =
  if Ascii.eqb c sep then EmptyString :: split sep rest
  else String c (hd EmptyString (split sep rest)) :: tl (split sep rest).
Proof.
  simpl. destruct (Ascii.eqb c sep); [reflexivity|].
  destruct (split sep rest) eqn:E; [|reflexivity].
  exfalso. eapply split_not_nil. exact E.
Qed.

(** Joining the segments with the separator gives the path back. *)
Lemma join_split s : join "." (split "."%char s) = s.
Proof.
  induction s as [|c rest IH]; [reflexivity|].
  rewrite split_cons.
  destruct (Ascii.eqb_spec c "."%char) as [->|Hne].
  - change (join "." (EmptyString :: split "."%char rest))
      with (match split "."%char rest with
            | [] => EmptyString
            | _ :: _ => "." +:+ join "." (split "."%char rest)
            end).
    destruct (split "."%char rest) eqn:E;
      [exfalso; eapply split_not_nil; exact E|].
    rewrite IH. reflexivity.
  - destruct (split "."%char rest) as [|seg segs] eqn:E;
      [exfalso; eapply split_not_nil; exact E|].
    simpl hd. simpl tl. rewrite <- IH.
    destruct segs; reflexivity.
Qed.

Lemma split_no_dot path : has_dot path = false -> split "."%char path = [path].
Proof.
  induction path as [|c rest IH]; simpl; [reflexivity|].
  intros H. apply orb_false_iff in H as [Hc Hrest].
  rewrite Hc, (IH Hrest). reflexivity.
Qed.

Lemma split_dotted a b :
  has_dot a = false ->
  split "."%char (a +:+ String "."%char b) = a :: split "."%char b.
Proof.
  induction a as [|c rest IH]; simpl; intros H; [reflexivity|].
  apply orb_false_iff in H as [Hc Hrest].
  rewrite Hc, (IH Hrest). reflexivity.
Qed.

(** The path an override has written can be read back. *)
Lemma set_nested_lookup fields last value :
  forall data data',
    set_nested fields last value data = inr data' ->
    descend (fields ++ [last]) data' = inr value.
Proof.
  induction fields as [|f fields IH]; simpl; intros data data' H.
  - destruct data; simpl in H; try discriminate.
    injection H as <-. simpl. rewrite lookup_insert_eq. reflexivity.
  - destruct data as [| | | | |m]; simpl in H; try discriminate.
    destruct (m !! f) as [child|]; [|discriminate].
    destruct (set_nested fields last value child) as [e|child'] eqn:E;
      [discriminate|].
    injection H as <-. simpl. rewrite lookup_insert_eq.
    eapply IH. exact E.
Qed.

(** An override rewrites one key of the data mapping, the first segment of
    its path, and what it writes there depends on that key alone. *)
Lemma set_nested_local fields last value m1 m2 :
  let h := hd last fields in
  m1 !! h = m2 !! h ->
  (exists e, set_nested fields last value (PDict m1) = inl e /\
             set_nested fields last value (PDict m2) = inl e) \/
  (exists x, set_nested fields last value (PDict m1)
             = inr (PDict (<[h := x]> m1)) /\
             set_nested fields last value (PDict m2)
             = inr (PDict (<[h := x]> m2))).
Proof.
  destruct fields as [|f fields]; simpl; intros H.
  - right. exists value. split; reflexivity.
  - rewrite <- H. destruct (m1 !! f) as [child|].
    + destruct (set_nested fields last value child) as [e|child'].
      * left. exists e. split; reflexivity.
      * right. exists child'. split; reflexivity.
    + left. eexists. split; reflexivity.
Qed.

Lemma set_nested_mapping fields last value data data' :
  set_nested fields last value data = inr data' ->
  exists m x, data = PDict m /\
              data' = PDict (<[hd last fields := x]> m).
Proof.
  intros H. destruct data as [| | | | |m];
    try (destruct fields; simpl in H; discriminate).
  destruct (set_nested_local fields last value m m eq_refl)
    as [(e & He & _)|(x & Hx & _)]; [congruence|].
  exists m, x. split; [reflexivity|congruence].
Qed.

Lemma set_nested_not_mapping pre post last value :
  forall data reached,
    descend pre data = inr reached ->
    is_mapping reached = false ->
    set_nested (pre ++ post) last value data = inl TypeError.
Proof.
  induction pre as [|f pre IH]; simpl; intros data reached Hd Hm.
  - injection Hd as ->.
    destruct reached; try discriminate; destruct post; reflexivity.
  - destruct (getitem data f) as [e|child]; [discriminate|].
    rewrite (IH child reached Hd Hm). reflexivity.
Qed.

Lemma hd_app_last (init : list string) last :
  hd EmptyString (init ++ [last]) = hd last init.
Proof. destruct init; reflexivity. Qed.

End OverrideLaws.

(** X1.  An override that succeeds can be read back: descending the data
    mapping along all segments of the path reaches the value.  Both the
    mapping before and the mapping after are dictionaries, and every key
    other than the first segment of the path is bound as before. *)
Theorem override_read_back (infra_dict infra_dict' : pyvalue)
        (path : string) (value : pyvalue) :
  Override.apply_override infra_dict (path, value) = inr infra_dict' ->
  Override.descend (Override.split "."%char path) infra_dict' = inr value /\
  exists m m',
    infra_dict = PDict m /\ infra_dict' = PDict m' /\
    forall k, k <> first_segment path -> m' !! k = m !! k.
Proof.
  unfold Override.apply_override, first_segment. simpl.
  destruct (split_shape "."%char path) as (init & last & ->).
  rewrite split_last_app. intros H. split.
  - eapply set_nested_lookup. exact H.
  - destruct (set_nested_mapping _ _ _ _ _ H) as (m & x & -> & ->).
    exists m. eexists. split; [reflexivity|]. split; [reflexivity|].
    intros k Hk. rewrite hd_app_last in Hk.
    apply lookup_insert_ne. congruence.
Qed.

Lemma override_read_back_witness :
  Override.descend ["env"; "HOME"]
    (PDict {[ "env" := PDict {[ "HOME" := PStr "/root" ]} ]})
  = inr (PStr "/root").
Proof.
  apply (proj1 (override_read_back
                  (BlockDocument.data Scripted.process_document)
                  (PDict {[ "env" := PDict {[ "HOME" := PStr "/root" ]} ]})
                  "env.HOME" (PStr "/root") eq_refl)).
Defined.

(** X2.  When the descent reaches a value that is not a mapping, at an
    intermediate segment or at the parent of the last one, the override
    raises [TypeError]. *)
Theorem override_through_non_mapping (infra_dict reached : pyvalue)
        (path : string) (value : pyvalue) (pre post : list string)
        (last : string) :
  Override.split "."%char path = pre ++ post ++ [last] ->
  Override.descend pre infra_dict = inr reached ->
  is_mapping reached = false ->
  Override.apply_override infra_dict (path, value) = inl TypeError.
Proof.
  intros Hsplit Hd Hm. unfold Override.apply_override. simpl.
  rewrite Hsplit, app_assoc, split_last_app.
  eapply set_nested_not_mapping; eassumption.
Qed.

Lemma override_through_non_mapping_witness :
  Override.apply_override (PDict {[ "image" := PStr "prefect" ]})
    ("image.tag", PStr "2.0") = inl TypeError.
Proof.
  apply (override_through_non_mapping
           (PDict {[ "image" := PStr "prefect" ]}) (PStr "prefect")
           "image.tag" (PStr "2.0") ["image"] [] "tag");
    reflexivity.
Defined.

(** X3.  A path without a dot binds that key of the data mapping itself to
    the value, replacing what was bound there; the empty path binds the
    empty key. *)
Theorem override_top_level (m : gmap string pyvalue) (path : string)
        (value : pyvalue) :
  has_dot path = false ->
  Override.apply_override (PDict m) (path, value)
  = inr (PDict (<[path := value]> m)).
Proof.
  intros H. unfold Override.apply_override. simpl.
  rewrite (split_no_dot path H). reflexivity.
Qed.

Lemma override_top_level_witness :
  Override.apply_override (PDict ∅) ("", PInt 1)
  = inr (PDict (<["" := PInt 1]> ∅)).
Proof. apply (override_top_level ∅ "" (PInt 1)). reflexivity. Defined.

(** X4.  The overrides are applied in order and each sees the effect of
    the ones before: an override that binds a key to a mapping lets a later
    override descend through that key, while in the opposite order, with
    the key not bound yet, the loop raises [KeyError] for it. *)
Theorem overrides_in_order (m : gmap string pyvalue) (a b : string)
        (value : pyvalue) :
  has_dot a = false ->
  has_dot b = false ->
  m !! a = None ->
  Override.apply_overrides (PDict m)
    [(a, PDict ∅); (a +:+ String "."%char b, value)]
  = inr (PDict (<[a := PDict {[ b := value ]}]> m)) /\
  Override.apply_overrides (PDict m)
    [(a +:+ String "."%char b, value); (a, PDict ∅)]
  = inl (KeyError a).
Proof.
  intros Ha Hb Hm. unfold Override.apply_overrides, Override.apply_override.
  simpl. rewrite (split_no_dot a Ha), (split_dotted a b Ha),
           (split_no_dot b Hb).
  simpl. rewrite lookup_insert_eq, Hm. simpl.
  rewrite insert_insert_eq, insert_empty. split; reflexivity.
Qed.

Lemma overrides_in_order_witness :
  Override.apply_overrides (PDict ∅)
    [("resources", PDict ∅); ("resources" +:+ String "."%char "cpu", PInt 2)]
  = inr (PDict (<["resources" := PDict {[ "cpu" := PInt 2 ]}]> ∅)) /\
  Override.apply_overrides (PDict ∅)
    [("resources" +:+ String "."%char "cpu", PInt 2); ("resources", PDict ∅)]
  = inl (KeyError "resources").
Proof.
  apply (overrides_in_order ∅ "resources" "cpu" (PInt 2)); reflexivity.
Defined.

(** X5.  Two overrides whose paths start with different segments can be
    applied in either order: when one order succeeds, the other succeeds
    with the same mapping. *)
Theorem overrides_commute (infra_dict infra_dict' : pyvalue)
        (p q : string) (v w : pyvalue) :
  first_segment p <> first_segment q ->
  Override.apply_overrides infra_dict [(p, v); (q, w)] = inr infra_dict' ->
  Override.apply_overrides infra_dict [(q, w); (p, v)] = inr infra_dict'.
Proof.
  unfold first_segment, Override.apply_overrides, Override.apply_override.
  simpl.
  destruct (split_shape "."%char p) as (ip & lp & ->).
  destruct (split_shape "."%char q) as (iq & lq & ->).
  rewrite !split_last_app, !hd_app_last. intros Hne.
  destruct (Override.set_nested ip lp v infra_dict) as [e|d1] eqn:Ep;
    [discriminate|].
  destruct (set_nested_mapping _ _ _ _ _ Ep) as (m & x & -> & ->).
  destruct (Override.set_nested iq lq w (PDict (<[hd lp ip := x]> m)))
    as [e|d2] eqn:Eq; [discriminate|].
  intros H. injection H as <-.
  destruct (set_nested_local iq lq w (<[hd lp ip := x]> m) m
              ltac:(cbv zeta; apply lookup_insert_ne; exact Hne))
    as [(e & He & _)|(y & Hy1 & Hy2)]; [congruence|].
  rewrite Hy2.
  destruct (set_nested_local ip lp v (<[hd lq iq := y]> m) m
              ltac:(cbv zeta; apply lookup_insert_ne; congruence))
    as [(e & _ & He)|(x' & Hx1 & Hx2)]; [congruence|].
  rewrite Hx1. rewrite Ep in Hx2. injection Hx2 as Hx2.
  rewrite Hy1 in Eq. injection Eq as <-.
  f_equal. f_equal.
  assert (Hxx : x = x').
  { apply (f_equal (fun m' => m' !! hd lp ip)) in Hx2.
    rewrite !lookup_insert_eq in Hx2. congruence. }
  subst x'. apply insert_insert_ne. congruence.
Qed.

Lemma overrides_commute_witness :
  Override.apply_overrides (BlockDocument.data Scripted.process_document)
    [("env.HOME", PStr "/root"); ("image", PStr "prefect")]
  = inr (PDict {[ "env" := PDict {[ "HOME" := PStr "/root" ]};
                  "image" := PStr "prefect" ]}).
Proof.
  apply (overrides_commute (BlockDocument.data Scripted.process_document) _
           "image" "env.HOME" (PStr "prefect") (PStr "/root")).
  - vm_compute. discriminate.
  - vm_compute. reflexivity.
Defined.

(** * Further properties of the resolver and the coordinator *)

Section ResolverLaws.
Context {W : Type} (orion : Orion W).
Implicit Types (s : St W) (flow_run : FlowRun.t).

Lemma get_infrastructure_run flow_run s c :
  client (agent s) = Some c ->
  get_infrastructure orion flow_run s =
  match read_deployment orion (FlowRun.deployment_id flow_run) (world s) with
  | (inl e, w1) =>
      (inl e, mkSt (agent s) w1,
       [CallReadDeployment (FlowRun.deployment_id flow_run)])
  | (inr deployment, w1) =>
      let doc_id :=
        match Deployment.infrastructure_document_id deployment with
        | Some doc_id => Some doc_id
        | None => default_infrastructure_document_id (agent s)
        end in
      match read_block_document orion doc_id w1 with
      | (inl e, w2) =>
          (inl e, mkSt (agent s) w2,
           [CallReadDeployment (FlowRun.deployment_id flow_run);
            CallReadBlockDocument doc_id])
      | (inr doc, w2) =>
          (match Override.apply_overrides (BlockDocument.data doc)
                   (default [] (Deployment.infra_overrides deployment)) with
           | inl e => inl e
           | inr infra_dict =>
               from_block_document orion
                 (BlockDocument.mk (BlockDocument.id doc)
                    (BlockDocument.block_type doc) infra_dict)
           end, mkSt (agent s) w2,
           [CallReadDeployment (FlowRun.deployment_id flow_run);
            CallReadBlockDocument doc_id])
      end
  end.
Proof.
  intros Hc. unfold get_infrastructure.
  destruct s as [a w]. simpl in Hc. run_code. rewrite Hc. simpl.
  destruct (read_deployment orion _ w) as [[e|deployment] w1]; simpl;
    [reflexivity|].
  rewrite Hc. simpl.
  destruct (read_block_document orion _ w1) as [[e|doc] w2]; simpl;
    [reflexivity|].
  destruct (Override.apply_overrides _ _) as [e|d]; simpl; [reflexivity|].
  destruct (from_block_document orion _); reflexivity.
Qed.

Lemma get_infrastructure_reads flow_run :
  emits (fun ev => is_failed_proposal ev = false /\ is_dispatch ev = false)
        (get_infrastructure orion flow_run).
Proof.
  unfold get_infrastructure. step_through; apply emits_emit; split;
    reflexivity.
Qed.

Lemma task_group_start_events flow_run infrastructure :
  emits (fun ev => is_failed_proposal ev = false)
        (task_group_start orion flow_run infrastructure).
Proof.
  unfold task_group_start. step_through. apply emits_emit. reflexivity.
Qed.



End ResolverLaws.

(** X6.  With a client, a deployment and a block document that can be read,
    the resolver makes exactly two calls, the deployment and then the block
    document named by the deployment or, when the deployment names none, by
    the agent's default.  It leaves the agent as it is and returns the block
    rebuilt from the document with the overrides applied to its data; with
    no overrides the block is rebuilt from the document as read. *)
Theorem resolver_reads_then_rebuilds {W} (orion : Orion W)
        (flow_run : FlowRun.t) (s : St W) (c : OrionClient)
        (deployment : Deployment.t) (w1 w2 : W) (doc : BlockDocument.t) :
  let doc_id :=
    match Deployment.infrastructure_document_id deployment with
    | Some doc_id => Some doc_id
    | None => default_infrastructure_document_id (agent s)
    end in
  let o := get_infrastructure orion flow_run s in
  client (agent s) = Some c ->
  read_deployment orion (FlowRun.deployment_id flow_run) (world s)
  = (inr deployment, w1) ->
  read_block_document orion doc_id w1 = (inr doc, w2) ->
  final o = mkSt (agent s) w2 /\
  events o = [CallReadDeployment (FlowRun.deployment_id flow_run);
              CallReadBlockDocument doc_id] /\
  result o
  = match Override.apply_overrides (BlockDocument.data doc)
            (default [] (Deployment.infra_overrides deployment)) with
    | inl e => inl e
    | inr infra_dict =>
        from_block_document orion
          (BlockDocument.mk (BlockDocument.id doc)
             (BlockDocument.block_type doc) infra_dict)
    end /\
  (Deployment.infra_overrides deployment = None \/
   Deployment.infra_overrides deployment = Some [] ->
   result o = from_block_document orion doc).
Proof.
  intros doc_id o Hc Hdep Hdoc. subst o.
  rewrite (get_infrastructure_run orion flow_run s c Hc), Hdep. cbv zeta.
  fold doc_id. rewrite Hdoc. simpl.
  repeat split. intros [-> | ->]; simpl; destruct doc; reflexivity.
Qed.

Lemma resolver_reads_then_rebuilds_witness :
  result (get_infrastructure (Scripted.server Scripted.happy) Scripted.run7
            (Scripted.at_noon Scripted.submitting7))
  = from_block_document (Scripted.server Scripted.happy)
      Scripted.process_document.
Proof.
  apply (proj2 (proj2 (proj2 (resolver_reads_then_rebuilds
                                (Scripted.server Scripted.happy)
                                Scripted.run7
                                (Scripted.at_noon Scripted.submitting7)
                                get_client Scripted.plain_deployment
                                43200000000 43200000000
                                Scripted.process_document
                                eq_refl eq_refl eq_refl)))).
  left. reflexivity.
Defined.



Section ReportLaws.
Context {W : Type} (orion : Orion W).
Implicit Types (s : St W) (flow_run : FlowRun.t).

Lemma no_failed_proposal_in {A} (m : M W A) s :
  emits (fun ev => is_failed_proposal ev = false) m ->
  existsb is_failed_proposal (events (m s)) = false.
Proof. intros H. apply existsb_false_Forall, H. Qed.

Lemma propose_pending_no_failed flow_run s :
  existsb is_failed_proposal (events (_propose_pending_state orion flow_run s))
  = false.
Proof.
  apply existsb_false_Forall.
  eapply Forall_impl; [apply propose_pending_quiet|].
  intros ev [_ H]. exact H.
Qed.

Lemma get_infrastructure_no_failed flow_run s :
  existsb is_failed_proposal (events (get_infrastructure orion flow_run s))
  = false.
Proof.
  apply existsb_false_Forall.
  eapply Forall_impl; [apply get_infrastructure_reads|].
  intros ev [H _]. exact H.
Qed.

Lemma task_group_start_no_failed flow_run infrastructure s :
  existsb is_failed_proposal
          (events (task_group_start orion flow_run infrastructure s)) = false.
Proof. apply no_failed_proposal_in, task_group_start_events. Qed.

End ReportLaws.

(** X8.  The coordinator proposes a Failed state only after the claim was
    granted, the infrastructure was resolved and the dispatch raised an
    exception that [except Exception] catches. *)
Theorem failed_only_after_dispatch {W} (orion : Orion W)
        (flow_run : FlowRun.t) (s : St W) :
  existsb is_failed_proposal (events (submit_run orion flow_run s)) = true ->
  exists s1 t1 infrastructure s2 t2 e,
    _propose_pending_state orion flow_run s = (inr true, s1, t1) /\
    get_infrastructure orion flow_run s1 = (inr infrastructure, s2, t2) /\
    result (task_group_start orion flow_run infrastructure s2) = inl e /\
    isinstance_Exception orion e = true.
Proof.
  unfold submit_run. rewrite bind_run.
  pose proof (propose_pending_no_failed orion flow_run s) as Q1.
  destruct (_propose_pending_state orion flow_run s) as [[r1 s1] t1] eqn:E1.
  simpl in Q1. simpl.
  destruct r1 as [e|[|]]; simpl.
  - rewrite Q1. discriminate.
  - rewrite bind_run, bind_run.
    pose proof (get_infrastructure_no_failed orion flow_run s1) as Q2.
    destruct (get_infrastructure orion flow_run s1)
      as [[r2 s2] t2] eqn:E2.
    simpl in Q2. simpl.
    destruct r2 as [e|infrastructure]; simpl.
    + rewrite List.existsb_app, Q1, Q2. discriminate.
    + rewrite try_run, bind_run.
      pose proof (task_group_start_no_failed orion flow_run infrastructure s2)
        as Q3.
      destruct (task_group_start orion flow_run infrastructure s2)
        as [[r3 s3] t3] eqn:E3.
      simpl in Q3. simpl.
      destruct r3 as [e|[]]; simpl.
      * destruct (isinstance_Exception orion e) eqn:Hexc; simpl.
        -- intros _. exists s1, t1, infrastructure, s2, t2, e.
           rewrite E3. repeat split; reflexivity || assumption.
        -- rewrite ?remove_submitting_silent, ?app_nil_r.
           rewrite !List.existsb_app, Q1, Q2, Q3. discriminate.
      * rewrite ?remove_submitting_silent, ?app_nil_r.
        rewrite !List.existsb_app, Q1, Q2, Q3. discriminate.
  - rewrite ret_bind, remove_submitting_silent, app_nil_r, Q1.
    discriminate.
Qed.

Lemma failed_only_after_dispatch_witness :
  exists s1 t1 infrastructure s2 t2 e,
    _propose_pending_state (Scripted.server Scripted.submit_fails)
      Scripted.run7 (Scripted.at_noon Scripted.submitting7)
    = (inr true, s1, t1) /\
    get_infrastructure (Scripted.server Scripted.submit_fails) Scripted.run7 s1
    = (inr infrastructure, s2, t2) /\
    result (task_group_start (Scripted.server Scripted.submit_fails)
              Scripted.run7 infrastructure s2) = inl e /\
    isinstance_Exception (Scripted.server Scripted.submit_fails) e = true.
Proof.
  apply (failed_only_after_dispatch (Scripted.server Scripted.submit_fails)
           Scripted.run7 (Scripted.at_noon Scripted.submitting7)).
  vm_compute. reflexivity.
Defined.

(** X9.  When the claim is granted, the infrastructure resolves and the
    dispatch returns, the coordinator logs the completed submission as its
    last record, proposes no Failed state, and returns with the identifier
    removed from [submitting_flow_run_ids] and the rest of the agent
    untouched. *)
Theorem submission_completes {W} (orion : Orion W) (flow_run : FlowRun.t)
        (s s1 s2 s3 : St W) (t1 t2 t3 : list event)
        (infrastructure : Infrastructure.t) :
  FlowRun.id flow_run ∈ submitting_flow_run_ids (agent s) ->
  _propose_pending_state orion flow_run s = (inr true, s1, t1) ->
  get_infrastructure orion flow_run s1 = (inr infrastructure, s2, t2) ->
  task_group_start orion flow_run infrastructure s2 = (inr tt, s3, t3) ->
  submit_run orion flow_run s
  = (inr tt,
     mkSt (with_submitting_flow_run_ids
             (submitting_flow_run_ids (agent s) ∖ {[FlowRun.id flow_run]})
             (agent s))
          (world s3),
     t1 ++ t2 ++ t3
     ++ [Log INFO false (CompletedSubmission (FlowRun.id flow_run))]) /\
  existsb is_failed_proposal (events (submit_run orion flow_run s)) = false.
Proof.
  intros Hin H1 H2 H3.
  pose proof (propose_pending_keeps orion flow_run s) as K1.
  pose proof (get_infrastructure_keeps orion flow_run s1) as K2.
  pose proof (task_group_start_keeps orion flow_run infrastructure s2) as K3.
  pose proof (propose_pending_no_failed orion flow_run s) as Q1.
  pose proof (get_infrastructure_no_failed orion flow_run s1) as Q2.
  pose proof (task_group_start_no_failed orion flow_run infrastructure s2)
    as Q3.
  rewrite H1 in K1, Q1. rewrite H2 in K2, Q2. rewrite H3 in K3, Q3.
  simpl in *.
  assert (Hrun : submit_run orion flow_run s
                 = (inr tt,
                    mkSt (with_submitting_flow_run_ids
                            (submitting_flow_run_ids (agent s)
                             ∖ {[FlowRun.id flow_run]}) (agent s))
                         (world s3),
                    t1 ++ t2 ++ t3
                    ++ [Log INFO false
                            (CompletedSubmission (FlowRun.id flow_run))])).
  { unfold submit_run. rewrite bind_run, H1. simpl.
    rewrite bind_run, bind_run, H2. simpl.
    rewrite try_run, bind_run, H3. simpl.
    rewrite remove_submitting_run. simpl.
    rewrite bool_decide_eq_true_2
      by (rewrite <- K3, <- K2, <- K1; exact Hin).
    simpl. rewrite <- K3, <- K2, <- K1, ?app_nil_r, <- ?app_assoc.
    reflexivity. }
  split; [exact Hrun|]. rewrite Hrun. simpl.
  rewrite !List.existsb_app, Q1, Q2, Q3. reflexivity.
Qed.

Lemma submission_completes_witness :
  existsb is_failed_proposal
          (events (submit_run (Scripted.server Scripted.happy) Scripted.run7
                     (Scripted.at_noon Scripted.submitting7))) = false.
Proof.
  eapply proj2, (submission_completes (Scripted.server Scripted.happy)
                   Scripted.run7 (Scripted.at_noon Scripted.submitting7)).
  - simpl. apply elem_of_singleton. reflexivity.
  - reflexivity.
  - reflexivity.
  - reflexivity.
Defined.

(** X20.  An error of the resolver is raised to its caller with the agent
    unchanged and nothing called after the failing step: when the
    deployment cannot be read the block document is not asked for, and
    when the block document cannot be read or an override cannot be
    applied, no block is rebuilt. *)
Theorem resolver_errors_propagate {W} (orion : Orion W)
        (flow_run : FlowRun.t) (s : St W) (c : OrionClient) :
  client (agent s) = Some c ->
  (forall e w1,
      read_deployment orion (FlowRun.deployment_id flow_run) (world s)
      = (inl e, w1) ->
      get_infrastructure orion flow_run s
      = (inl e, mkSt (agent s) w1,
         [CallReadDeployment (FlowRun.deployment_id flow_run)])) /\
  (forall deployment w1,
      read_deployment orion (FlowRun.deployment_id flow_run) (world s)
      = (inr deployment, w1) ->
      let doc_id :=
        match Deployment.infrastructure_document_id deployment with
        | Some doc_id => Some doc_id
        | None => default_infrastructure_document_id (agent s)
        end in
      (forall e w2,
          read_block_document orion doc_id w1 = (inl e, w2) ->
          get_infrastructure orion flow_run s
          = (inl e, mkSt (agent s) w2,
             [CallReadDeployment (FlowRun.deployment_id flow_run);
              CallReadBlockDocument doc_id])) /\
      (forall doc w2 e,
          read_block_document orion doc_id w1 = (inr doc, w2) ->
          Override.apply_overrides (BlockDocument.data doc)
            (default [] (Deployment.infra_overrides deployment)) = inl e ->
          get_infrastructure orion flow_run s
          = (inl e, mkSt (agent s) w2,
             [CallReadDeployment (FlowRun.deployment_id flow_run);
              CallReadBlockDocument doc_id]))).
Proof.
  intros Hc. split.
  - intros e w1 H.
    rewrite (get_infrastructure_run orion flow_run s c Hc), H. reflexivity.
  - intros deployment w1 H doc_id. split.
    + intros e w2 Hdoc.
      rewrite (get_infrastructure_run orion flow_run s c Hc), H. cbv zeta.
      fold doc_id. rewrite Hdoc. reflexivity.
    + intros doc w2 e Hdoc Hover.
      rewrite (get_infrastructure_run orion flow_run s c Hc), H. cbv zeta.
      fold doc_id. rewrite Hdoc, Hover. reflexivity.
Qed.

Lemma resolver_errors_propagate_witness :
  get_infrastructure (Scripted.server Scripted.bad_override) Scripted.run7
    (Scripted.at_noon Scripted.submitting7)
  = (inl (KeyError "resources"), Scripted.at_noon Scripted.submitting7,
     [CallReadDeployment (Some 3%N); CallReadBlockDocument (Some 5%N)]).
Proof.
  apply (proj2 (proj2 (resolver_errors_propagate
                         (Scripted.server Scripted.bad_override)
                         Scripted.run7
                         (Scripted.at_noon Scripted.submitting7) get_client
                         eq_refl)
                      Scripted.bad_deployment 43200000000 eq_refl)
               Scripted.process_document 43200000000 (KeyError "resources"));
    reflexivity.
Defined.

(** * Further properties of the tick *)

#[export] Instance preserves_preorder P : PreOrder (preserves P).
Proof.
  split.
  - intros a H. exact H.
  - intros a b c H K Ha. apply K, H, Ha.
Qed.

Section TickLaws.
Context {W : Type} (orion : Orion W).
Implicit Types (s : St W) (flow_run : FlowRun.t).

Lemma spawned_app t1 t2 : spawned (t1 ++ t2) = spawned t1 ++ spawned t2.
Proof.
  induction t1 as [|ev t1 IH]; [reflexivity|].
  destruct ev; simpl; rewrite IH; reflexivity.
Qed.

Lemma spawned_none t :
  Forall no_spawn t -> spawned t = [].
Proof.
  induction 1 as [|ev t H _ IH]; [reflexivity|].
  destruct ev; simpl; try exact IH.
  specialize (H (FlowRun.id flow_run)). simpl in H.
  rewrite bool_decide_eq_true_2 in H by reflexivity. discriminate.
Qed.

(** Going through the runs of a tick with a task group. *)
Lemma loop_effect (runs : list FlowRun.t) :
  forall s tasks,
    task_group (agent s) = Some tasks ->
    let o := for_each runs submit_if_new tt s in
    result o = inr tt /\
    spawned (events o)
    = first_new (submitting_flow_run_ids (agent s)) runs /\
    task_group (agent (final o)) = Some (tasks ++ spawned (events o)) /\
    (forall i, i ∈ submitting_flow_run_ids (agent (final o)) <->
               i ∈ submitting_flow_run_ids (agent s) \/
               In i (map FlowRun.id runs)).
Proof.
  induction runs as [|r runs IH]; intros s tasks Htg; cbv zeta.
  - simpl. rewrite app_nil_r. repeat split; try assumption.
    + intros H. left. exact H.
    + intros [H|[]]. exact H.
  - rewrite for_each_cons, submit_if_new_run. simpl first_new.
    case_bool_decide as Hin; simpl.
    + destruct (IH s tasks Htg) as (H1 & H2 & H3 & H4).
      repeat split; try assumption.
      * intros H. apply H4 in H. tauto.
      * intros [H|[<-|H]]; apply H4; tauto.
    + rewrite Htg. simpl.
      set (s' := mkSt _ _).
      destruct (IH s' (tasks ++ [r]) eq_refl) as (H1 & H2 & H3 & H4).
      split; [exact H1|]. split; [rewrite H2; reflexivity|].
      split; [rewrite H3, <- app_assoc; reflexivity|].
      intros i. rewrite H4. subst s'. simpl.
      rewrite elem_of_union, elem_of_singleton. intuition congruence.
Qed.

Lemma fetch_spawned s : spawned (events (tick_fetch orion s)) = [].
Proof.
  apply spawned_none. unfold tick_fetch. apply fetch_no_spawn.
Qed.



End TickLaws.

Section TickFacts.
Context {W : Type} (orion : Orion W).
Implicit Types (s : St W).

(** The state in which the generator reads the clock. *)
Lemma tick_fetch_live s e :
  _work_queue_cache_expiration (agent s) = Some e ->
  e > read_instant orion (mkSt (agent s) (snd (pendulum_now orion (world s)))) ->
  tick_fetch orion s
  = for_each (_work_queue_cache (agent s))
      (load_runs orion (tick_before orion s)) []
      (mkSt (agent s)
         (snd (pendulum_now orion (snd (pendulum_now orion (world s)))))).
Proof.
  intros He Hgt. unfold tick_fetch. rewrite get_work_queues_run. cbv zeta.
  simpl. rewrite He. simpl. rewrite bool_decide_eq_true_2 by exact Hgt.
  reflexivity.
Qed.

Lemma shutdown_started s : started (agent (final (shutdown orion s))) = false.
Proof.
  rewrite shutdown_run. cbv zeta.
  set (s0 := mkSt (with_started false (agent s)) (world s)).
  destruct (task_group (agent s)) as [tasks|]; simpl; [|reflexivity].
  pose proof (await_coordinators_keeps orion same_setup tasks
                ltac:(intros; repeat split)
                ltac:(intros; apply submit_run_same_setup) s0)
    as (_ & _ & Hst & _).
  destruct (result (await_coordinators orion tasks s0)); simpl;
    [exact Hst|].
  destruct (client (agent (final _))); simpl; [|exact Hst].
  destruct (client_aexit orion _) as [[e|[]] w]; simpl; exact Hst.
Qed.

End TickFacts.

(** X10.  A tick of an agent that is not started raises [RuntimeError]
    without a log record or a call and leaves everything as it is.  That is
    the case for an agent as [__init__] returns it and after every
    [shutdown], whether it returned or raised. *)
Theorem tick_needs_start {W} (orion : Orion W) (s : St W) :
  let refused :=
    (inl (RuntimeError
            "Agent is not started. Use `async with OrionAgent()...`"),
     s, []) in
  (started (agent s) = false -> get_and_submit_flow_runs orion s = refused) /\
  (forall work_queues prefetch_seconds infra doc_id,
      OrionAgent.__init__ work_queues prefetch_seconds infra doc_id
      = inr (agent s) ->
      get_and_submit_flow_runs orion s = refused) /\
  (forall s0 : St W,
      s = final (shutdown orion s0) ->
      get_and_submit_flow_runs orion s = refused).
Proof.
  cbv zeta.
  assert (H : started (agent s) = false ->
              get_and_submit_flow_runs orion s
              = (inl (RuntimeError
                        "Agent is not started. Use `async with OrionAgent()...`"),
                 s, [])).
  { intros Hs. rewrite tick_run, Hs. reflexivity. }
  split; [exact H|]. split.
  - intros wq pf infra doc_id Hinit. apply H.
    unfold OrionAgent.__init__ in Hinit.
    destruct infra, doc_id; try discriminate;
      injection Hinit as <-; reflexivity.
  - intros s0 ->. apply H, shutdown_started.
Qed.

Lemma tick_needs_start_witness :
  get_and_submit_flow_runs (Scripted.server Scripted.happy)
    (Scripted.at_noon Scripted.fresh)
  = (inl (RuntimeError
            "Agent is not started. Use `async with OrionAgent()...`"),
     Scripted.at_noon Scripted.fresh, []).
Proof.
  apply (proj1 (tick_needs_start (Scripted.server Scripted.happy)
                  (Scripted.at_noon Scripted.fresh))).
  reflexivity.
Defined.

(** X11.  A tick of a started agent with a task group returns the runs it
    polled, and then: the coordinators it spawned are the returned runs
    that were not in flight, each identifier once, in the order returned;
    they are appended to the task group in that order; and
    [submitting_flow_run_ids] holds what it held before together with the
    identifiers of all returned runs. *)
Theorem tick_effect {W} (orion : Orion W) (s : St W)
        (tasks runs : list FlowRun.t) :
  let o := get_and_submit_flow_runs orion s in
  started (agent s) = true ->
  task_group (agent s) = Some tasks ->
  result o = inr runs ->
  spawned (events o) = first_new (submitting_flow_run_ids (agent s)) runs /\
  task_group (agent (final o)) = Some (tasks ++ spawned (events o)) /\
  (forall i, i ∈ submitting_flow_run_ids (agent (final o)) <->
             i ∈ submitting_flow_run_ids (agent s) \/
             In i (map FlowRun.id runs)).
Proof.
  intros o Hst Htg. subst o. rewrite tick_run, Hst. simpl.
  pose proof (fetch_frame orion s) as (_ & _ & HS & _ & Htg' & _).
  pose proof (fetch_spawned orion s) as Hsp.
  destruct (result (tick_fetch orion s)) as [e|runs'] eqn:Hf; simpl;
    [discriminate|].
  rewrite Htg in Htg'.
  destruct (loop_effect runs' (final (tick_fetch orion s)) tasks Htg')
    as (H1 & H2 & H3 & H4).
  fold (tick_loop orion s runs') in H1, H2, H3, H4.
  rewrite H1. intros H. injection H as <-.
  rewrite spawned_app, Hsp. simpl. rewrite <- HS.
  repeat split; try assumption; apply H4.
Qed.

Lemma tick_effect_witness :
  spawned (events (get_and_submit_flow_runs (Scripted.server Scripted.happy)
                     (Scripted.at_noon Scripted.started)))
  = first_new ∅ [Scripted.run7].
Proof.
  apply (proj1 (tick_effect (Scripted.server Scripted.happy)
                  (Scripted.at_noon Scripted.started) [] [Scripted.run7]
                  eq_refl eq_refl eq_refl)).
Defined.



(** * Further properties of the work-queue cache *)

Section ReloadLaws.
Context {W : Type} (orion : Orion W).
Implicit Types (s : St W).

Lemma load_work_queue_run name s c :
  client (agent s) = Some c ->
  load_work_queue orion name s =
  match read_work_queue_by_name orion name (world s) with
  | (inr work_queue, w) =>
      (inr (Some work_queue), mkSt (agent s) w,
       [CallReadWorkQueueByName name])
  | (inl e, w) =>
      if is_ObjectNotFound e then
        match create_work_queue orion name w with
        | (inr work_queue, w') =>
            (inr (Some work_queue), mkSt (agent s) w',
             [CallReadWorkQueueByName name; CallCreateWorkQueue name;
              Log INFO false (CreatedWorkQueue name)])
        | (inl e', w') =>
            if isinstance_Exception orion e' then
              (inr None, mkSt (agent s) w',
               [CallReadWorkQueueByName name; CallCreateWorkQueue name;
                Log ERROR true (FailedToCreateWorkQueue name)])
            else
              (inl e', mkSt (agent s) w',
               [CallReadWorkQueueByName name; CallCreateWorkQueue name])
        end
      else (inl e, mkSt (agent s) w, [CallReadWorkQueueByName name])
  end.
Proof.
  intros Hc. unfold load_work_queue. destruct s as [a w]. simpl in Hc.
  run_code. rewrite Hc. simpl.
  destruct (read_work_queue_by_name orion name w) as [[e|wq] w1]; simpl;
    [|reflexivity].
  destruct (is_ObjectNotFound e); simpl; [|reflexivity].
  rewrite Hc. simpl.
  destruct (create_work_queue orion name w1) as [[e'|wq] w2]; simpl;
    [|reflexivity].
  destruct (isinstance_Exception orion e'); reflexivity.
Qed.

(** One round of the reload loop appends at most one queue. *)
Lemma reload_grows before name (acc : list FlowRun.t) s :
  let o := reload orion (load_runs orion before) name acc s in
  (length (_work_queue_cache (agent (final o)))
   <= S (length (_work_queue_cache (agent s))))%nat /\
  work_queues (agent (final o)) = work_queues (agent s).
Proof.
  cbv zeta. unfold reload. rewrite bind_run.
  pose proof (load_work_queue_keeps orion name s) as Hsame.
  destruct (result (load_work_queue orion name s)) as [e|[q|]]; simpl.
  - rewrite <- Hsame. split; [lia|reflexivity].
  - rewrite bind_run. simpl. set (s2 := mkSt _ _).
    pose proof (load_runs_keeps orion before q acc s2) as Hsame2.
    rewrite <- Hsame2. subst s2. simpl. rewrite <- Hsame, length_app.
    simpl. split; [lia|reflexivity].
  - rewrite <- Hsame. split; [lia|reflexivity].
Qed.

Lemma reloaded_bound before (names : list string) :
  forall (acc : list FlowRun.t) s,
    let o := for_each names (reload orion (load_runs orion before)) acc s in
    (length (_work_queue_cache (agent (final o)))
     <= length (_work_queue_cache (agent s)) + length names)%nat /\
    work_queues (agent (final o)) = work_queues (agent s).
Proof.
  induction names as [|name names IH]; intros acc s; cbv zeta.
  - simpl. split; [lia|reflexivity].
  - rewrite for_each_cons.
    destruct (reload_grows before name acc s) as [Hlen Hwq].
    destruct (result (reload orion (load_runs orion before) name acc s))
      as [e|acc']; simpl.
    + split; [lia|exact Hwq].
    + destruct (IH acc' (final (reload orion (load_runs orion before)
                                  name acc s))) as [Hlen2 Hwq2].
      split; [lia|congruence].
Qed.

Lemma fetch_bounded before (acc : list FlowRun.t) s :
  cache_bounded (agent s) ->
  cache_bounded
    (agent (final (get_work_queues orion (load_runs orion before) acc s))).
Proof.
  intros Hb. rewrite get_work_queues_run. cbv zeta.
  destruct (bool_decide _).
  - rewrite <- (keeps_for_each eq _ (load_runs orion before)
                  (load_runs_keeps orion before) acc (mkSt _ _)).
    exact Hb.
  - destruct (reloaded_bound before (work_queues (agent s)) acc
                (mkSt (with_cache_expiration
                         (Some (add_seconds (read_instant orion s) 30))
                         (with_cache [] (agent s)))
                      (snd (pendulum_now orion (world s)))))
      as [Hlen Hwq].
    unfold cache_bounded. rewrite Hwq. simpl in *. exact Hlen.
Qed.

Lemma submit_if_new_bounded flow_run u :
  keeps (preserves cache_bounded) (submit_if_new flow_run u : M W unit).
Proof.
  unfold submit_if_new. step_through;
    apply keeps_modify; intro; intros H; exact H.
Qed.

Lemma tick_bounded s :
  cache_bounded (agent s) ->
  cache_bounded (agent (final (get_and_submit_flow_runs orion s))).
Proof.
  intros Hb. rewrite tick_run.
  destruct (started (agent s)); simpl; [|exact Hb].
  assert (Hf : cache_bounded (agent (final (tick_fetch orion s))))
    by (apply fetch_bounded; exact Hb).
  destruct (result (tick_fetch orion s)) as [e|runs]; simpl; [exact Hf|].
  apply (keeps_for_each (preserves cache_bounded) runs submit_if_new
           submit_if_new_bounded tt (final (tick_fetch orion s))), Hf.
Qed.

Lemma bounded_same a a' :
  same_cache a a' -> work_queues a' = work_queues a ->
  cache_bounded a -> cache_bounded a'.
Proof. unfold cache_bounded. intros [-> _] ->. tauto. Qed.

Lemma step_bounded act s :
  cache_bounded (agent s) ->
  cache_bounded (agent (final (step orion act s))).
Proof.
  intros Hb. destruct act; simpl.
  - assert (K : keeps (preserves cache_bounded) (start orion)).
    { unfold start. step_through; apply keeps_modify; intro; intros H;
        exact H. }
    apply K, Hb.
  - rewrite bind_run. pose proof (tick_bounded s Hb) as H.
    destruct (result (get_and_submit_flow_runs orion s)); exact H.
  - eapply bounded_same; [apply coordinator_same_cache| |exact Hb].
    unfold run_next_coordinator. rewrite bind_run. simpl.
    destruct (task_group (agent s)) as [[|r rest]|]; simpl;
      try reflexivity.
    rewrite bind_run. simpl. set (s1 := mkSt _ _).
    pose proof (submit_run_same_setup orion r s1) as (Hwq & _).
    destruct (result (submit_run orion r s1)); exact Hwq.
  - rewrite shutdown_run. cbv zeta.
    set (s0 := mkSt (with_started false (agent s)) (world s)).
    destruct (task_group (agent s)) as [tasks|]; simpl; [|exact Hb].
    assert (H1 : cache_bounded
                   (agent (final (await_coordinators orion tasks s0)))).
    { assert (H0 : cache_bounded (agent s0)) by exact Hb.
      eapply bounded_same; [| |exact H0].
      - apply (await_coordinators_keeps orion same_cache tasks
                 ltac:(intros; split; reflexivity)
                 ltac:(intros; apply submit_run_same_cache) s0).
      - apply (await_coordinators_keeps orion same_setup tasks
                 ltac:(intros; repeat split)
                 ltac:(intros; apply submit_run_same_setup) s0). }
    destruct (result (await_coordinators orion tasks s0)); simpl; [exact H1|].
    destruct (client (agent (final _))); simpl; [|exact H1].
    destruct (client_aexit orion _) as [[e|[]] w]; simpl; [exact H1|].
    unfold cache_bounded. simpl. lia.
Qed.

End ReloadLaws.

(** X13.  Over every sequence of starts, ticks, coordinator runs and
    shutdowns the cache holds at most as many queues as the agent has
    names: a reload starts from the empty list and appends at most one
    queue per name.  The agent [__init__] returns starts within the bound. *)
Theorem cache_never_outgrows_names {W} (orion : Orion W) :
  (forall acts (s : St W),
      cache_bounded (agent s) ->
      cache_bounded (agent (fst (run orion acts s)))) /\
  (forall work_queues prefetch_seconds infra doc_id a,
      OrionAgent.__init__ work_queues prefetch_seconds infra doc_id = inr a ->
      cache_bounded a).
Proof.
  split.
  - induction acts as [|act acts IH]; intros s Hb; [exact Hb|].
    simpl. pose proof (step_bounded orion act s Hb) as H1.
    destruct (step orion act s) as [[r s1] t1]. simpl in H1.
    specialize (IH s1 H1). destruct (run orion acts s1) as [s2 t2].
    exact IH.
  - intros wq pf infra doc_id a H. unfold OrionAgent.__init__ in H.
    destruct infra, doc_id; try discriminate;
      injection H as <-; unfold cache_bounded; simpl; lia.
Qed.

Lemma cache_never_outgrows_names_witness :
  cache_bounded
    (agent (fst (run (Scripted.server Scripted.happy)
                     [Start; Tick; Coordinator; Tick; Shutdown]
                     (Scripted.at_noon Scripted.fresh)))).
Proof.
  apply (proj1 (cache_never_outgrows_names (Scripted.server Scripted.happy))).
  unfold cache_bounded. simpl. lia.
Defined.

(** X14.  A queue that is not found is created, appended to the cache and
    yielded, with an info record.  When the creation raises an exception,
    the failure is logged, the queue is neither cached nor yielded, and the
    loop goes on with the next name. *)
Theorem missing_queue_created_or_skipped {W} (orion : Orion W) {B}
        (body : WorkQueue.t -> B -> M W B) (name : string) (acc : B)
        (s : St W) (c : OrionClient) (e : exn) (w1 : W) :
  client (agent s) = Some c ->
  read_work_queue_by_name orion name (world s) = (inl e, w1) ->
  is_ObjectNotFound e = true ->
  (forall work_queue w2,
      create_work_queue orion name w1 = (inr work_queue, w2) ->
      let yielded :=
        body work_queue acc
          (mkSt (with_cache (_work_queue_cache (agent s) ++ [work_queue])
                            (agent s)) w2) in
      reload orion body name acc s
      = (result yielded, final yielded,
         [CallReadWorkQueueByName name; CallCreateWorkQueue name;
          Log INFO false (CreatedWorkQueue name)] ++ events yielded)) /\
  (forall e' w2,
      create_work_queue orion name w1 = (inl e', w2) ->
      isinstance_Exception orion e' = true ->
      reload orion body name acc s
      = (inr acc, mkSt (agent s) w2,
         [CallReadWorkQueueByName name; CallCreateWorkQueue name;
          Log ERROR true (FailedToCreateWorkQueue name)])).
Proof.
  intros Hc Hread Hnf. split.
  - intros wq w2 Hcreate. cbv zeta. unfold reload.
    rewrite bind_run, (load_work_queue_run orion name s c Hc), Hread, Hnf,
      Hcreate.
    simpl. rewrite bind_run. simpl. reflexivity.
  - intros e' w2 Hcreate Hexc. unfold reload.
    rewrite bind_run, (load_work_queue_run orion name s c Hc), Hread, Hnf,
      Hcreate, Hexc.
    reflexivity.
Qed.

Lemma missing_queue_created_or_skipped_witness :
  reload (Scripted.server Scripted.creation_race)
    (load_runs (Scripted.server Scripted.creation_race) 0) "q1" []
    (Scripted.at_noon Scripted.started)
  = (inr [], Scripted.at_noon Scripted.started,
     [CallReadWorkQueueByName "q1"; CallCreateWorkQueue "q1";
      Log ERROR true (FailedToCreateWorkQueue "q1")]).
Proof.
  apply (proj2 (missing_queue_created_or_skipped
                  (Scripted.server Scripted.creation_race)
                  (load_runs (Scripted.server Scripted.creation_race) 0)
                  "q1" [] (Scripted.at_noon Scripted.started) get_client
                  ObjectNotFound 43200000000 eq_refl eq_refl eq_refl)
               (OtherError "already exists") 43200000000);
    reflexivity.
Defined.

(** X15.  When the cache is to be reloaded and reading the first queue
    raises an error other than not-found, the tick raises that error after
    the one read: the cache is left empty and its expiration is already
    set thirty seconds ahead.  A next tick whose clock reads before that
    expiration polls nothing and returns the empty list. *)
Theorem read_error_aborts_tick {W} (orion : Orion W) (s : St W)
        (c : OrionClient) (name : string) (rest : list string) (e : exn)
        (w2 : W) :
  let s0 := mkSt (agent s) (snd (pendulum_now orion (world s))) in
  let now := read_instant orion s0 in
  let failed :=
    mkSt (with_cache_expiration (Some (add_seconds now 30))
            (with_cache [] (agent s))) w2 in
  started (agent s) = true ->
  client (agent s) = Some c ->
  _work_queue_cache_expiration (agent s) = None \/
  (exists expiration,
      _work_queue_cache_expiration (agent s) = Some expiration /\
      expiration <= now) ->
  work_queues (agent s) = name :: rest ->
  read_work_queue_by_name orion name (snd (pendulum_now orion (world s0)))
  = (inl e, w2) ->
  is_ObjectNotFound e = false ->
  get_and_submit_flow_runs orion s
  = (inl e, failed,
     [Log DEBUG false CheckingForFlowRuns; CallReadWorkQueueByName name]) /\
  (read_instant orion (mkSt (agent failed) (snd (pendulum_now orion w2)))
   < add_seconds now 30 ->
   get_and_submit_flow_runs orion failed
   = (inr [],
      mkSt (agent failed)
           (snd (pendulum_now orion (snd (pendulum_now orion w2)))),
      [Log DEBUG false CheckingForFlowRuns])).
Proof.
  intros s0 now failed Hst Hc Hstale Hwq Hread Hnf. split.
  - rewrite tick_run, Hst. simpl. unfold tick_fetch.
    rewrite get_work_queues_run. cbv zeta. fold s0. fold now.
    rewrite bool_decide_eq_false_2
      by (simpl; destruct Hstale as [->|(x & -> & Hle)]; simpl; lia).
    simpl agent. rewrite Hwq, for_each_cons. unfold reload.
    rewrite bind_run.
    erewrite load_work_queue_run by (simpl; exact Hc). simpl world.
    unfold s0 in Hread. simpl in Hread. rewrite Hread, Hnf. reflexivity.
  - intros Hlive. rewrite tick_run. unfold tick_loop.
    rewrite (tick_fetch_live orion failed (add_seconds now 30) eq_refl)
      by (apply Z.lt_gt; exact Hlive).
    simpl. rewrite Hst. reflexivity.
Qed.

Lemma read_error_aborts_tick_witness :
  get_and_submit_flow_runs (Scripted.server unreachable_server)
    (Scripted.at_noon Scripted.started)
  = (inl (OtherError "connection refused"),
     mkSt (with_cache_expiration (Some (add_seconds 43200000000 30))
             (with_cache [] Scripted.started)) 43200000000,
     [Log DEBUG false CheckingForFlowRuns; CallReadWorkQueueByName "q1"]).
Proof.
  apply (proj1 (read_error_aborts_tick (Scripted.server unreachable_server)
                  (Scripted.at_noon Scripted.started) get_client "q1" []
                  (OtherError "connection refused") 43200000000
                  eq_refl eq_refl (or_introl eq_refl) eq_refl eq_refl
                  eq_refl)).
Defined.

Section PrefetchLaws.
Context {W : Type} (orion : Orion W).
Implicit Types (s : St W).

(** The polls of one tick. *)
Lemma tick_polls s ev :
  In ev (events (get_and_submit_flow_runs orion s)) ->
  is_get_runs_call ev = true ->
  polled (tick_before orion s)
         (_work_queue_cache
            (agent (final (get_and_submit_flow_runs orion s)))) ev.
Proof.
  intros Hin Hcall. rewrite tick_run in *.
  destruct (started (agent s)); simpl in *; [|destruct Hin].
  pose proof (fetch_calls orion (tick_before orion s) []
                (mkSt (agent s) (snd (pendulum_now orion (world s)))))
    as Hf.
  cbv zeta in Hf. fold (tick_fetch orion s) in Hf.
  rewrite Forall_forall in Hf.
  destruct (result (tick_fetch orion s)) as [e|runs]; simpl in *.
  - destruct Hin as [<-|Hin]; [discriminate|].
    apply (Hf ev). apply list_elem_of_In. exact Hin.
  - destruct Hin as [<-|Hin]; [discriminate|].
    apply in_app_or in Hin as [Hin|Hin].
    + pose proof (keeps_for_each same_cache runs submit_if_new
                    submit_if_new_keeps_cache tt
                    (final (tick_fetch orion s))) as [Hcache _].
      unfold tick_loop. rewrite Hcache.
      apply (Hf ev). apply list_elem_of_In. exact Hin.
    + pose proof (loop_calls runs (final (tick_fetch orion s))) as Hl.
      rewrite Forall_forall in Hl. unfold tick_loop in Hin.
      rewrite (Hl ev) in Hcall; [discriminate|].
      apply list_elem_of_In. exact Hin.
Qed.

End PrefetchLaws.

(** X16.  An agent built with [prefetch_seconds=0] polls like one built
    without [prefetch_seconds]: every call of [get_runs_in_work_queue] in a
    tick asks for runs scheduled before the instant of the tick plus the
    configured default.  Any other value is added as given. *)
Theorem zero_prefetch_is_default {W} (orion : Orion W) (s : St W)
        (ev : event) :
  In ev (events (get_and_submit_flow_runs orion s)) ->
  is_get_runs_call ev = true ->
  exists queue_id,
    ev = CallGetRunsInWorkQueue queue_id 10
           (add_seconds (read_instant orion s)
              match prefetch_seconds (agent s) with
              | None | Some 0 => PREFECT_AGENT_PREFETCH_SECONDS orion
              | Some seconds => seconds
              end).
Proof.
  intros Hin Hcall.
  destruct (tick_polls orion s ev Hin Hcall Hcall) as (q & _ & _ & ->).
  exists (WorkQueue.id q). unfold tick_before, prefetch.
  destruct (prefetch_seconds (agent s)) as [[| |]|]; reflexivity.
Qed.

Example zero_prefetch_agent_is_started :
  exists a,
    OrionAgent.__init__ ["q1"] (Some 0) None (Some 5%N) = inr a /\
    final (start (Scripted.server Scripted.happy) (Scripted.at_noon a))
    = Scripted.at_noon started_zero_prefetch.
Proof. eexists. split; reflexivity. Qed.

Lemma zero_prefetch_is_default_witness :
  exists queue_id,
    CallGetRunsInWorkQueue 1%N 10 43210000000
    = CallGetRunsInWorkQueue queue_id 10
        (add_seconds
           (read_instant (Scripted.server Scripted.happy)
              (Scripted.at_noon started_zero_prefetch))
           match prefetch_seconds
                   (agent (Scripted.at_noon started_zero_prefetch)) with
           | None | Some 0 =>
               PREFECT_AGENT_PREFETCH_SECONDS (Scripted.server Scripted.happy)
           | Some seconds => seconds
           end).
Proof.
  apply (zero_prefetch_is_default (Scripted.server Scripted.happy)
           (Scripted.at_noon started_zero_prefetch)).
  - vm_compute. right. right. left. reflexivity.
  - reflexivity.
Defined.

(** * Further properties of the lifecycle *)

(** X17.  A [shutdown] that raises has reset nothing: the agent is marked
    as not started, and its client, its cache and the expiration of the
    cache are as before. *)
Theorem failed_shutdown_resets_nothing {W} (orion : Orion W) (s : St W)
        (e : exn) :
  result (shutdown orion s) = inl e ->
  let a' := agent (final (shutdown orion s)) in
  started a' = false /\
  client a' = client (agent s) /\
  _work_queue_cache a' = _work_queue_cache (agent s) /\
  _work_queue_cache_expiration a' = _work_queue_cache_expiration (agent s).
Proof.
  rewrite shutdown_run. cbv zeta.
  set (s0 := mkSt (with_started false (agent s)) (world s)).
  destruct (task_group (agent s)) as [tasks|]; simpl;
    [|intros _; repeat split].
  pose proof (await_coordinators_keeps orion same_setup tasks
                ltac:(intros; repeat split)
                ltac:(intros; apply submit_run_same_setup) s0)
    as (_ & _ & Hst & Hcl & _).
  pose proof (await_coordinators_keeps orion same_cache tasks
                ltac:(intros; split; reflexivity)
                ltac:(intros; apply submit_run_same_cache) s0)
    as (Hcache & Hexp).
  simpl in Hst, Hcl, Hcache, Hexp.
  destruct (result (await_coordinators orion tasks s0)); simpl.
  - intros _. repeat split; assumption.
  - destruct (client (agent (final _))) eqn:Hc; simpl.
    + destruct (client_aexit orion _) as [[e'|[]] w]; simpl;
        [|discriminate].
      intros _. repeat split; congruence.
    + intros _. repeat split; congruence.
Qed.

Lemma failed_shutdown_resets_nothing_witness :
  let a' := agent (final (shutdown (Scripted.server Scripted.bad_override)
                            (Scripted.at_noon Scripted.submitting7))) in
  started a' = false /\
  client a' = Some get_client /\
  _work_queue_cache a' = [Scripted.q1] /\
  _work_queue_cache_expiration a' = Some 43230000000.
Proof.
  apply (failed_shutdown_resets_nothing
           (Scripted.server Scripted.bad_override)
           (Scripted.at_noon Scripted.submitting7) (KeyError "resources")).
  vm_compute. reflexivity.
Defined.

(** X18.  A [start] that returns on an agent as [__init__] built it leaves
    the agent started, with a client, an empty task group and a default
    infrastructure document identifier.  The default infrastructure is
    saved, once, exactly when [__init__] left no identifier; an identifier
    [__init__] left is kept and nothing is saved. *)
Theorem start_after_init {W} (orion : Orion W) (work_queues : list string)
        (prefetch_seconds : option Z) (infra : option Infrastructure.t)
        (doc_id : option UUID) (a : OrionAgent.t) (w : W) (s' : St W)
        (trace : list event) :
  OrionAgent.__init__ work_queues prefetch_seconds infra doc_id = inr a ->
  start orion (mkSt a w) = (inr tt, s', trace) ->
  started (agent s') = true /\
  task_group (agent s') = Some [] /\
  client (agent s') = Some get_client /\
  match default_infrastructure_document_id a with
  | Some known =>
      default_infrastructure_document_id (agent s') = Some known /\
      trace = [ClientEnter]
  | None =>
      exists block w1 saved w2,
        default_infrastructure a = Some block /\
        client_aenter orion w = (inr tt, w1) /\
        save_anonymous orion block w1 = (inr saved, w2) /\
        default_infrastructure_document_id (agent s') = Some saved /\
        trace = [ClientEnter; SaveBlock block]
  end.
Proof.
  intros Hinit. unfold start. run_code.
  destruct (client_aenter orion w) as [[e|[]] w1] eqn:Henter; simpl;
    [discriminate|].
  unfold OrionAgent.__init__ in Hinit.
  destruct infra as [block|], doc_id as [known|]; try discriminate;
    injection Hinit as <-; simpl.
  - destruct (Infrastructure._block_document_id block) as [known|] eqn:Hid;
      simpl.
    + intros H. injection H as <- <-. simpl. rewrite ?Hid.
      repeat split; reflexivity.
    + destruct (save_anonymous orion block w1) as [[e|saved] w2] eqn:Hsave;
        simpl; [discriminate|].
      intros H. injection H as <- <-. simpl. rewrite ?Hid.
      repeat split; try reflexivity.
      exists block, w1, saved, w2. repeat split; try reflexivity.
      exact Hsave.
  - intros H. injection H as <- <-. repeat split; reflexivity.
  - destruct (save_anonymous orion Process w1) as [[e|saved] w2] eqn:Hsave;
      simpl; [discriminate|].
    intros H. injection H as <- <-. simpl.
    repeat split; try reflexivity.
    exists Process, w1, saved, w2. repeat split; try reflexivity.
    exact Hsave.
Qed.

Lemma start_after_init_witness :
  started (agent (Scripted.at_noon Scripted.started)) = true /\
  task_group (agent (Scripted.at_noon Scripted.started)) = Some [] /\
  client (agent (Scripted.at_noon Scripted.started)) = Some get_client /\
  default_infrastructure_document_id (agent (Scripted.at_noon Scripted.started))
  = Some 5%N /\
  [ClientEnter] = [ClientEnter].
Proof.
  apply (start_after_init (Scripted.server Scripted.happy) ["q1"] None None
           (Some 5%N) Scripted.fresh 43200000000
           (Scripted.at_noon Scripted.started) [ClientEnter]);
    reflexivity.
Defined.

(** X19.  [__init__] raises [ValueError] exactly when both a default
    infrastructure and a default document identifier are given.  Otherwise
    it returns an agent that is not started, with nothing in flight and an
    empty cache, whose queue names are the given names without
    duplicates; with neither argument the default infrastructure is a
    [Process]. *)
Theorem init_validates_defaults (work_queues : list string)
        (prefetch_seconds : option Z) (infra : option Infrastructure.t)
        (doc_id : option UUID) :
  ((exists msg, OrionAgent.__init__ work_queues prefetch_seconds infra doc_id
                = inl (ValueError msg)) <->
   is_Some infra /\ is_Some doc_id) /\
  (forall a,
      OrionAgent.__init__ work_queues prefetch_seconds infra doc_id = inr a ->
      NoDup (OrionAgent.work_queues a) /\
      (forall name, name ∈ OrionAgent.work_queues a <-> name ∈ work_queues) /\
      started a = false /\
      submitting_flow_run_ids a = ∅ /\
      _work_queue_cache a = [] /\
      _work_queue_cache_expiration a = None /\
      (infra = None -> doc_id = None ->
       default_infrastructure a = Some Process)).
Proof.
  unfold OrionAgent.__init__. split.
  - destruct infra, doc_id; split;
      try (intros [msg H]; discriminate);
      try (intros [[? H] [? K]]; discriminate).
    + intros _. split; eexists; reflexivity.
    + intros _. eexists. reflexivity.
  - intros a H.
    assert (Hwq : OrionAgent.work_queues a = remove_dups work_queues).
    { destruct infra, doc_id; try discriminate; injection H as <-;
        reflexivity. }
    rewrite Hwq. split; [apply NoDup_remove_dups|].
    split; [intros name; apply elem_of_remove_dups|].
    destruct infra, doc_id; try discriminate; injection H as <-;
      repeat split; try reflexivity; discriminate.
Qed.

Lemma init_validates_defaults_witness :
  exists msg,
    OrionAgent.__init__ ["q1"] None (Some Process) (Some 5%N)
    = inl (ValueError msg).
Proof.
  apply (proj1 (init_validates_defaults ["q1"] None (Some Process)
                  (Some 5%N))).
  split; eexists; reflexivity.
Defined.
